(** * Thunderstore: the Cyberstorm package-listing pipeline and the v1 package cache

    A shallow embedding of [thunderstore/api/cyberstorm/views/packages.py]
    (request validation, the queryset filters, the ordering, the paginator
    and the sibling links of [BasePackageListAPIView]) together with a model
    of the [APIV1PackageCache] protocol, and the properties proved of them.

    Conventions of the embedding:
    - a [QuerySet[Package]] is the list of the package rows it selects, each
      row carrying the related rows the filters reach through joins
      ([latest], [versions], [community_listings] and their categories);
    - [queryset.exclude(cond)] keeps the rows on which [cond] is false;
      a condition on the multi-valued relation [community_listings__...]
      holds of a package when one of its listings satisfies it, which is how
      the ORM evaluates such a condition under [exclude] (a subquery per
      condition);
    - timestamps are integers, identifiers are integers or strings. *)

From stdpp Require Import base decidable option list sorting gmap strings pretty.
From Stdlib Require Import ZArith Lia Ascii.

Open Scope string_scope.
Open Scope Z_scope.

#[local] Set Warnings "-clear-no-such-hyp".

(** ** Text helpers: the [icontains] lookup and [str.split] *)

Module Text.

(** ASCII upper-casing of one character; bytes outside [a-z] are kept. *)
Definition upper_ascii (c : ascii) : ascii :=
  let n := nat_of_ascii c in
  if ((97 <=? n)%nat && (n <=? 122)%nat)%bool then ascii_of_nat (n - 32) else c.

Fixpoint upper (s : string) : string :=
  match s with
  | EmptyString => EmptyString
  | String c s' => String (upper_ascii c) (upper s')
  end.

(** [contains s part]: [part] occurs in [s] as a contiguous substring. *)
Fixpoint contains (s part : string) : bool :=
  String.prefix part s
  || match s with
     | EmptyString => false
     | String _ s' => contains s' part
     end.

(** [field__icontains=part]: case-insensitive containment, compiled by the
    ORM to [UPPER(field) LIKE UPPER('%part%')]. *)
Definition icontains (field part : string) : bool :=
  contains (upper field) (upper part).

(** [s.split(sep)] for a one-character separator: every separator ends a
    part, so consecutive separators give empty parts. *)
Fixpoint split (sep : ascii) (s : string) : list string :=
  match s with
  | EmptyString => [EmptyString]
  | String c s' =>
      if Ascii.eqb c sep then EmptyString :: split sep s'
      else match split sep s' with
           | [] => [String c EmptyString]
           | w :: ws => String c w :: ws
           end
  end.

(** Python truthiness of a string. *)
Definition truthy (s : string) : bool :=
  match s with EmptyString => false | _ => true end.

End Text.

(** ** Data model: the rows the listing queries read *)

Inductive PackageListingReviewStatus := unreviewed | approved | rejected.

#[global] Instance PackageListingReviewStatus_eq_dec :
  EqDecision PackageListingReviewStatus.
Proof. solve_decision. Defined.

(** A row of [PackageVersion]; [icon] is the url of the icon file, [None]
    when the file field is empty. *)
Record PackageVersion := {
  description : string;
  downloads : Z;
  file_size : Z;
  icon : option string;
}.

#[global] Instance PackageVersion_eq_dec : EqDecision PackageVersion.
Proof. solve_decision. Defined.

(** A row of [PackageListing]: the association of a package with a
    community, with the ids of its categories. *)
Record PackageListing := {
  listing_community : Z;
  review_status : PackageListingReviewStatus;
  has_nsfw_content : bool;
  categories : list Z;
}.

#[global] Instance PackageListing_eq_dec : EqDecision PackageListing.
Proof. solve_decision. Defined.

Record Package := {
  pk : Z;
  name : string;
  owner_name : string;
  namespace_name : string;
  is_active : bool;
  is_deprecated : bool;
  is_pinned : bool;
  date_created : Z;
  date_updated : Z;
  latest : option PackageVersion;
  versions : list PackageVersion;
  package_ratings : nat;
  community_listings : list PackageListing;
}.

#[global] Instance Package_eq_dec : EqDecision Package.
Proof. solve_decision. Defined.

Record Community := {
  community_pk : Z;
  require_package_listing_approval : bool;
}.

Record PackageListingSection := {
  require_categories : list Z;
  exclude_categories : list Z;
}.

(** The tables a request reads. [communities] is keyed by the community
    identifier, [namespaces] holds the namespace names and [sections] is
    keyed by the section uuid (its canonical text). *)
Record Database := {
  packages : list Package;
  communities : gmap string Community;
  namespaces : list string;
  sections : gmap string PackageListingSection;
}.

Definition QuerySet := list Package.

(** [exclude(community_listings__<cond>)] reaches the listings through a
    multi-valued relation: the condition holds when some listing has it. *)
Definition any_listing (cond : PackageListing → bool) (p : Package) : bool :=
  existsb cond (community_listings p).

(** ** The queryset filters of [packages.py] *)

(** Modelled from the spec: the manager method [Package.objects.active()],
    whose queryset class is missing; it selects the packages that are
    active. *)
Definition active (db : Database) : QuerySet :=
  filter (λ p, is_active p) (packages db).

Definition get_community_package_queryset (db : Database) (community : Community)
  : QuerySet :=
  filter (λ p, any_listing (λ l, bool_decide (listing_community l = community_pk community)) p)
         (active db).

Definition filter_deprecated (show_deprecated : bool) (queryset : QuerySet) : QuerySet :=
  if show_deprecated then queryset
  else filter (λ p, negb (is_deprecated p)) queryset.

Definition filter_nsfw (show_nsfw : bool) (queryset : QuerySet) : QuerySet :=
  if show_nsfw then queryset
  else filter (λ p, negb (any_listing has_nsfw_content p)) queryset.

Definition in_categories (category_ids : list Z) (l : PackageListing) : bool :=
  existsb (λ c, bool_decide (c ∈ category_ids)) (categories l).

Definition filter_in_categories (category_ids : list Z) (queryset : QuerySet)
  : QuerySet :=
  match category_ids with
  | [] => queryset
  | _ => filter (λ p, any_listing (in_categories category_ids) p) queryset
  end.

Definition filter_not_in_categories (category_ids : list Z) (queryset : QuerySet)
  : QuerySet :=
  match category_ids with
  | [] => queryset
  | _ => filter (λ p, negb (any_listing (in_categories category_ids) p)) queryset
  end.

(** [section_uuid] is [None] when the request has no [section] parameter;
    a [uuid.UUID] object is always truthy. The lookup that raises
    [DoesNotExist] is the [None] of the table. *)
Definition filter_by_section (db : Database) (section_uuid : option string)
    (queryset : QuerySet) : QuerySet :=
  match section_uuid with
  | None => queryset
  | Some u =>
      let '(required, excluded) :=
        match sections db !! u with
        | None => ([], [])
        | Some section => (require_categories section, exclude_categories section)
        end in
      filter_not_in_categories excluded (filter_in_categories required queryset)
  end.

(** The three [search_fields] of [filter_by_query]. *)
Inductive SearchField := f_name | f_owner__name | f_latest__description.

Definition search_fields : list SearchField :=
  [f_name; f_owner__name; f_latest__description].

(** The [Q] objects [filter_by_query] builds. [Q_empty] is [Q()]. *)
Inductive Q :=
| Q_empty
| Q_icontains (field : SearchField) (part : string)
| Q_not (q : Q)
| Q_and (a b : Q).

(** [a & b]: combining with an empty [Q] gives the other operand. *)
Definition q_and (a b : Q) : Q :=
  match a, b with
  | Q_empty, _ => b
  | _, Q_empty => a
  | _, _ => Q_and a b
  end.

(** The text a search field reads; [latest] is a nullable relation and a
    package without it has no description to match. *)
Definition field_text (f : SearchField) (p : Package) : option string :=
  match f with
  | f_name => Some (name p)
  | f_owner__name => Some (owner_name p)
  | f_latest__description => description <$> latest p
  end.

Fixpoint q_holds (q : Q) (p : Package) : bool :=
  match q with
  | Q_empty => true
  | Q_icontains f part =>
      match field_text f p with
      | Some t => Text.icontains t part
      | None => false
      end
  | Q_not q' => negb (q_holds q' p)
  | Q_and a b => q_holds a p && q_holds b p
  end.

(** [queryset.exclude(q)]; excluding the empty [Q()] adds no condition. *)
Definition exclude (q : Q) (queryset : QuerySet) : QuerySet :=
  match q with
  | Q_empty => queryset
  | _ => filter (λ p, negb (q_holds q p)) queryset
  end.

(** [queryset.distinct()]. *)
Definition distinct (queryset : QuerySet) : QuerySet := remove_dups queryset.

(** [parts = [x for x in query.split(" ") if x]] *)
Definition query_parts (query : string) : list string :=
  filter (λ x, Text.truthy x) (Text.split " "%char query).

(** The inner [for] loop, for one part: every field contributes
    [icontains_query &= ~Q(field__icontains=part)]. *)
Definition add_part (acc : Q) (part : string) : Q :=
  foldl (λ acc' field, q_and acc' (Q_not (Q_icontains field part))) acc search_fields.

(** The outer [for] loop over the parts, from [icontains_query = Q()]. *)
Definition icontains_query (parts : list string) : Q :=
  foldl add_part Q_empty parts.

Definition filter_by_query (query : option string) (queryset : QuerySet) : QuerySet :=
  match query with
  | None => queryset
  | Some q =>
      if Text.truthy q
      then distinct (exclude (icontains_query (query_parts q)) queryset)
      else queryset
  end.

Definition review_statuses (require_approval : bool)
  : list PackageListingReviewStatus :=
  [approved] ++ (if require_approval then [] else [unreviewed]).

Definition filter_by_review_status (require_approval : bool) (queryset : QuerySet)
  : QuerySet :=
  filter (λ p, any_listing
                 (λ l, bool_decide (review_status l ∈ review_statuses require_approval)) p)
         queryset.

(** ** Ordering: [ORDER_ARGS] and [queryset.order_by] *)

(** The columns [order_by] is given; [download_count] and [rating_count]
    are the annotations of [_annotate_queryset]. *)
Inductive OrderField :=
| o_is_pinned | o_is_deprecated | o_date_updated | o_date_created
| o_download_count | o_rating_count | o_pk.

(** An [order_by] argument: ["field"] ascending, ["-field"] descending. *)
Inductive OrderArg := Asc (f : OrderField) | Desc (f : OrderField).

(** Keys are values expected in requests, values are args for [order_by]. *)
Definition ORDER_ARGS : list (string * OrderArg) :=
  [ ("last-updated", Desc o_date_updated);
    ("most-downloaded", Desc o_download_count);
    ("newest", Desc o_date_created);
    ("top-rated", Desc o_rating_count) ].

(** [d[key]] on a dict written as an association list; [None] is [KeyError]. *)
Fixpoint dict_get {V} (d : list (string * V)) (key : string) : option V :=
  match d with
  | [] => None
  | (k, v) :: d' => if String.eqb k key then Some v else dict_get d' key
  end.

(** [Sum("versions__downloads")]: the SQL sum of no rows is NULL. *)
Definition download_count (p : Package) : option Z :=
  match versions p with
  | [] => None
  | vs => Some (foldr (λ v acc, downloads v + acc) 0 vs)
  end.

(** [Count("package_ratings")] *)
Definition rating_count (p : Package) : Z := Z.of_nat (package_ratings p).

(** The value a row has in a column; [None] is NULL. *)
Definition order_key (f : OrderField) (p : Package) : option Z :=
  match f with
  | o_is_pinned => Some (Z.b2z (is_pinned p))
  | o_is_deprecated => Some (Z.b2z (is_deprecated p))
  | o_date_updated => Some (date_updated p)
  | o_date_created => Some (date_created p)
  | o_download_count => download_count p
  | o_rating_count => Some (rating_count p)
  | o_pk => Some (pk p)
  end.

(** Column comparison; NULL sorts as larger than every value (last when
    ascending, first when descending), as PostgreSQL orders it. *)
Definition compare_null (a b : option Z) : comparison :=
  match a, b with
  | None, None => Eq
  | None, Some _ => Gt
  | Some _, None => Lt
  | Some x, Some y => Z.compare x y
  end.

Definition compare_arg (arg : OrderArg) (a b : Package) : comparison :=
  match arg with
  | Asc f => compare_null (order_key f a) (order_key f b)
  | Desc f => compare_null (order_key f b) (order_key f a)
  end.

(** Rows are compared by the first argument that tells them apart. *)
Fixpoint compare_by (args : list OrderArg) (a b : Package) : comparison :=
  match args with
  | [] => Eq
  | arg :: rest =>
      match compare_arg arg a b with
      | Eq => compare_by rest a b
      | c => c
      end
  end.

Definition order_le (args : list OrderArg) (a b : Package) : Prop :=
  compare_by args a b ≠ Gt.

#[global] Instance order_le_dec args a b : Decision (order_le args a b).
Proof. unfold order_le. solve_decision. Defined.

Definition order_by (args : list OrderArg) (queryset : QuerySet) : QuerySet :=
  merge_sort (order_le args) queryset.

(** ** Request parameters and [PackageListRequestSerializer] *)

(** [request.query_params]: the (key, value) pairs of the query string, in
    order; a key may occur several times. *)
Definition QueryDict := list (string * string).

(** What the serializer takes from Django REST framework. The framework
    binds the query string to the fields and converts primitive values;
    its field classes are not part of this repository and are an interface
    here. [None] from a [get_*] is the framework's [empty] marker (the field
    was not supplied), [None] from a conversion is a validation error. *)
Class RestFramework := {
  (** [Field.get_value] of a scalar field *)
  get_value : QueryDict → string → option string;
  (** [ListField.get_value] *)
  get_list_value : QueryDict → string → option (list string);
  (** [BooleanField.to_internal_value] *)
  boolean_to_internal_value : string → option bool;
  (** [IntegerField.to_internal_value], before the [min_value] validator *)
  integer_to_internal_value : string → option Z;
  (** [CharField.run_validation] *)
  char_to_internal_value : string → option string;
  (** [UUIDField.to_internal_value], giving the canonical text of the uuid *)
  uuid_to_internal_value : string → option string;
  (** [PageNumberPagination.get_page_number] followed by the integer
      conversion of [Paginator.validate_number]; [None] is
      [PageNotAnInteger] *)
  paginator_page_number : QueryDict → option Z;
}.

(** [validated_data] of [PackageListRequestSerializer]. [q] and [section]
    are absent from the dict when not supplied. *)
Record Params := {
  deprecated : bool;
  excluded_categories : list Z;
  included_categories : list Z;
  nsfw : bool;
  ordering : string;
  page : Z;
  q : option string;
  section : option string;
}.

Section Serializer.
Context `{RestFramework}.

(** A field with a default: not supplied gives the default. *)
Definition with_default {A} (conv : string → option A) (default : A)
    (data : option string) : option A :=
  match data with
  | None => Some default
  | Some v => conv v
  end.

(** A field with [required=False] and no default: not supplied leaves the
    key out of [validated_data]. *)
Definition optional {A} (conv : string → option A) (data : option string)
  : option (option A) :=
  match data with
  | None => Some None
  | Some v => Some <$> conv v
  end.

(** [ListField(child=IntegerField(), default=[])] *)
Definition integer_list_field (data : option (list string)) : option (list Z) :=
  match data with
  | None => Some []
  | Some vs => mapM integer_to_internal_value vs
  end.

(** [ChoiceField(choices=list(ORDER_ARGS.keys()))] *)
Definition choice_to_internal_value (v : string) : option string :=
  if bool_decide (v ∈ ORDER_ARGS.*1) then Some v else None.

(** [IntegerField(min_value=1)] *)
Definition page_to_internal_value (v : string) : option Z :=
  n ← integer_to_internal_value v;
  if bool_decide (1 ≤ n) then Some n else None.

(** [qp.is_valid()]: [None] when some field is invalid. *)
Definition is_valid (data : QueryDict) : option Params :=
  d ← with_default boolean_to_internal_value false (get_value data "deprecated");
  ex ← integer_list_field (get_list_value data "excluded_categories");
  inc ← integer_list_field (get_list_value data "included_categories");
  n ← with_default boolean_to_internal_value false (get_value data "nsfw");
  o ← with_default choice_to_internal_value "last-updated" (get_value data "ordering");
  pg ← with_default page_to_internal_value 1 (get_value data "page");
  qv ← optional char_to_internal_value (get_value data "q");
  s ← optional uuid_to_internal_value (get_value data "section");
  Some {| deprecated := d; excluded_categories := ex; included_categories := inc;
          nsfw := n; ordering := o; page := pg; q := qv; section := s |}.

(** [value.sort()] on a list of integers. *)
Definition sort (value : list Z) : list Z := merge_sort Z.le value.

(** The loop of [_get_validated_query_params]: the two list-valued
    parameters are sorted in place. *)
Definition sort_lists (params : Params) : Params :=
  {| deprecated := deprecated params;
     excluded_categories := sort (excluded_categories params);
     included_categories := sort (included_categories params);
     nsfw := nsfw params;
     ordering := ordering params;
     page := page params;
     q := q params;
     section := section params |}.
End Serializer.

(** ** [PackageListPaginator] *)

Module PackageListPaginator.

Definition page_size : Z := 20.

(** [Paginator.num_pages] with no orphans and an empty first page
    allowed: [ceil(max(1, count) / per_page)]. *)
Definition num_pages (count : Z) : Z :=
  (Z.max 1 count + page_size - 1) / page_size.

(** A [Page]: its rows, its number and the facts of its paginator. *)
Record Page := {
  object_list : list Package;
  number : Z;
  paginator_count : Z;
}.

(** [Paginator.validate_number] on an integer: [None] is [EmptyPage]. *)
Definition validate_number (count n : Z) : option Z :=
  if bool_decide (n < 1) then None
  else if bool_decide (num_pages count < n) then None
  else Some n.

(** [Paginator.page]: the slice [object_list[bottom:top]]. *)
Definition get_page (queryset : list Package) (n : Z) : option Page :=
  let count := Z.of_nat (length queryset) in
  n' ← validate_number count n;
  let bottom := (n' - 1) * page_size in
  let top := if bool_decide (count ≤ bottom + page_size) then count
             else bottom + page_size in
  Some {| object_list := take (Z.to_nat (top - bottom)) (drop (Z.to_nat bottom) queryset);
          number := n';
          paginator_count := count |}.

(** The bounds of the slice [object_list[bottom:top]] of page [n]. *)
Definition slice_bottom (n : Z) : Z := (n - 1) * page_size.
Definition slice_top (count n : Z) : Z :=
  if bool_decide (count ≤ slice_bottom n + page_size) then count
  else slice_bottom n + page_size.

Definition has_previous (p : Page) : bool := bool_decide (1 < number p).
Definition has_next (p : Page) : bool :=
  bool_decide (number p < num_pages (paginator_count p)).
Definition previous_page_number (p : Page) : Z := number p - 1.
Definition next_page_number (p : Page) : Z := number p + 1.

End PackageListPaginator.

(** ** [urllib.parse.urlencode] *)

Module Urllib.

Definition hex_digit (n : nat) : ascii :=
  match String.get n "0123456789ABCDEF" with
  | Some c => c
  | None => "0"%char
  end.

(** The characters [quote] never escapes: letters, digits and [_.-~]. *)
Definition always_safe (c : ascii) : bool :=
  let n := nat_of_ascii c in
  ((48 <=? n) && (n <=? 57) || (65 <=? n) && (n <=? 90)
   || (97 <=? n) && (n <=? 122)
   || (n =? 95) || (n =? 46) || (n =? 45) || (n =? 126))%nat%bool.

(** [quote_plus] on the bytes of a string: a space becomes [+], every
    other unsafe byte [%XX]. *)
Fixpoint quote_plus (s : string) : string :=
  match s with
  | EmptyString => EmptyString
  | String c s' =>
      let n := nat_of_ascii c in
      (if always_safe c then String c EmptyString
       else if Ascii.eqb c " "%char then "+"
       else String "%"%char
              (String (hex_digit (n / 16)) (String (hex_digit (n mod 16)) EmptyString)))
      +:+ quote_plus s'
  end.

(** The values of the [validated_data] dict. *)
Inductive Value :=
| VBool (b : bool)
| VInt (n : Z)
| VStr (s : string)
| VUuid (s : string)
| VList (l : list Z).

(** [str(v)] for the scalars. *)
Definition str_bool (b : bool) : string := if b then "True" else "False".
Definition str_int (n : Z) : string := pretty n.

(** The [k=v] pairs one item contributes under [doseq=True]: a list gives
    one pair per element (none when empty). *)
Definition item_pairs (k : string) (v : Value) : list string :=
  let pair s := quote_plus k +:+ "=" +:+ quote_plus s in
  match v with
  | VBool b => [pair (str_bool b)]
  | VInt n => [pair (str_int n)]
  | VStr s => [pair s]
  | VUuid s => [pair s]
  | VList l => (λ elt, pair (str_int elt)) <$> l
  end.

Fixpoint join (sep : string) (l : list string) : string :=
  match l with
  | [] => ""
  | [x] => x
  | x :: l' => x +:+ sep +:+ join sep l'
  end.

(** All the [k=v] pairs of a query, in order. *)
Definition query_pairs (query : list (string * Value)) : list string :=
  concat ((λ kv, item_pairs kv.1 kv.2) <$> query).

Definition urlencode (query : list (string * Value)) : string :=
  join "&" (query_pairs query).

End Urllib.

(** ** The view: effects, exceptions and [BasePackageListAPIView] *)

(** The database queries a request executes, in order. A queryset is lazy:
    building and filtering it runs nothing, the package queries run when
    the paginator counts and slices it. The read of a queryset that asks
    for [prefetch_related] is followed by one query for each relation it
    prefetches, when it has read a row. [SelectCategoryIds] is the
    evaluation of [section.<relation>.values_list("pk", flat=True)], and
    [SelectListing] the lookup [p.community_listings.get(...)] of a row.
    What the response serializer runs while it renders is outside these
    files and not in the log. *)
Inductive DbQuery :=
| SelectCommunity (identifier : string)
| SelectNamespace (name : string)
| SelectSection (uuid : string)
| CountPackages
| SelectPackages
| PrefetchRelated (lookup : string)
| SelectCategoryIds (uuid relation : string)
| SelectListing (package : Z) (community_id : string).

#[global] Instance DbQuery_eq_dec : EqDecision DbQuery.
Proof. solve_decision. Defined.

Definition is_package_query (x : DbQuery) : bool :=
  match x with
  | CountPackages | SelectPackages => true
  | _ => false
  end.

(** The exceptions that end a request. *)
Inductive Exception :=
| Http404                   (* get_object_or_404 *)
| ValidationError           (* is_valid(raise_exception=True) *)
| NotFound                  (* the paginator's invalid page *)
| KeyError
| MultipleObjectsReturned
| DoesNotExist              (* a [get] that finds no row *)
| AttributeError.           (* an attribute of [None] *)

(** The response status the framework's exception handler gives. *)
Definition status_code (e : Exception) : Z :=
  match e with
  | Http404 => 404
  | ValidationError => 400
  | NotFound => 404
  | KeyError => 500
  | MultipleObjectsReturned => 500
  | DoesNotExist => 500
  | AttributeError => 500
  end.

(** A computation of the view: it extends the log of executed queries and
    returns a value or raises. *)
Definition View (A : Type) : Type :=
  list DbQuery → (Exception + A) * list DbQuery.

Definition ret {A} (a : A) : View A := λ log, (inr a, log).
Definition raise {A} (e : Exception) : View A := λ log, (inl e, log).
Definition execute (x : DbQuery) : View unit := λ log, (inr (), (log ++ [x])%list).
Definition bind {A B} (m : View A) (k : A → View B) : View B :=
  λ log, match m log with
         | (inl e, log') => (inl e, log')
         | (inr a, log') => k a log'
         end.

Notation "x <~ m ;; k" := (bind m (λ x, k))
  (at level 100, m at next level, k at level 200, right associativity).
Notation "m ;;; k" := (bind m (λ _, k))
  (at level 100, k at level 200, right associativity).

Definition execute_all (xs : list DbQuery) : View unit :=
  λ log, (inr (), (log ++ xs)%list).

(** A [for] loop that appends the result of each round to a list; the
    first exception ends it. *)
Fixpoint for_each {A B} (f : A → View B) (l : list A) : View (list B) :=
  match l with
  | [] => ret []
  | x :: l' =>
      y <~ f x ;;
      ys <~ for_each f l' ;;
      ret (y :: ys)
  end.

(** [settings.PROTOCOL], [settings.PRIMARY_HOST] and Django's [reverse]
    for the view's url pattern. *)
Class UrlConf := {
  PROTOCOL : string;
  PRIMARY_HOST : string;
  reverse : string → list (string * string) → string;
}.

Inductive ViewClass := CommunityPackageListAPIView | NamespacePackageListAPIView.

Definition viewname (v : ViewClass) : string :=
  match v with
  | CommunityPackageListAPIView => "api:cyberstorm:cyberstorm.package.community"
  | NamespacePackageListAPIView => "api:cyberstorm:cyberstorm.package.community.namespace"
  end.

(** The dict [_get_packages_dicts] makes of a row and its listing. *)
Module PackageDict.

Record t := {
  categories : list Z;
  community_identifier : string;
  description : string;
  download_count : option Z;
  icon_url : option string;
  is_deprecated : bool;
  is_nsfw : bool;
  is_pinned : bool;
  last_updated : Z;
  namespace : string;
  name : string;
  rating_count : Z;
  size : Z;
}.

End PackageDict.

(** The body of the paginated response. [results] holds the rows of the
    page, in order, and [package_list] the dicts made of them, which the
    response serializer renders one by one. *)
Record Response := {
  count : Z;
  previous : option string;
  next : option string;
  results : list Package;
  package_list : list PackageDict.t;
}.

Section BasePackageListAPIView.
Context `{RestFramework} `{UrlConf}.
Variable db : Database.
Variable self : ViewClass.
Variable kwargs : list (string * string).
Variable query_params : QueryDict.

Import PackageListPaginator.

(** [self.kwargs[key]] *)
Definition kwarg (key : string) : View string :=
  match dict_get kwargs key with
  | Some v => ret v
  | None => raise KeyError
  end.

Definition _get_community : View Community :=
  community_id <~ kwarg "community_id" ;;
  execute (SelectCommunity community_id) ;;;
  match communities db !! community_id with
  | Some c => ret c
  | None => raise Http404
  end.

(** [get_object_or_404(Namespace, name__iexact=namespace_id)] *)
Definition get_namespace (namespace_id : string) : View string :=
  execute (SelectNamespace namespace_id) ;;;
  match filter (λ n, Text.upper n = Text.upper namespace_id) (namespaces db) with
  | [] => raise Http404
  | [n] => ret n
  | _ => raise MultipleObjectsReturned
  end.

(** [get_queryset] of the base class; the annotations of
    [_annotate_queryset] are the functions [download_count] and
    [rating_count] of a row. *)
Definition base_get_queryset : View QuerySet :=
  community <~ _get_community ;;
  ret (get_community_package_queryset db community).

(** [get_queryset], as the view class overrides it. *)
Definition get_queryset : View QuerySet :=
  match self with
  | CommunityPackageListAPIView => base_get_queryset
  | NamespacePackageListAPIView =>
      namespace_id <~ kwarg "namespace_id" ;;
      namespace <~ get_namespace namespace_id ;;
      community_scoped_qs <~ base_get_queryset ;;
      ret (filter (λ p, namespace_name p = namespace) community_scoped_qs)
  end.

Definition _get_validated_query_params : View Params :=
  match is_valid query_params with
  | None => raise ValidationError
  | Some params => ret (sort_lists params)
  end.

(** [filter_by_section] runs its section lookup at once. When the section
    exists the lookup prefetches its two category relations, and the two
    [values_list] querysets are evaluated by the test [if not category_ids]
    of the category filters. *)
Definition filter_by_section_q (section_uuid : option string) (queryset : QuerySet)
  : View QuerySet :=
  match section_uuid with
  | None => ret queryset
  | Some u =>
      execute (SelectSection u) ;;;
      match sections db !! u with
      | None => ret (filter_by_section db (Some u) queryset)
      | Some _ =>
          execute (PrefetchRelated "require_categories") ;;;
          execute (PrefetchRelated "exclude_categories") ;;;
          execute (SelectCategoryIds u "require_categories") ;;;
          execute (SelectCategoryIds u "exclude_categories") ;;;
          ret (filter_by_section db (Some u) queryset)
      end
  end.

(** The argument is not used: the queryset is built again. *)
Definition filter_queryset (_ : QuerySet) : View QuerySet :=
  community <~ _get_community ;;
  let require_approval := require_package_listing_approval community in
  queryset <~ get_queryset ;;
  params <~ _get_validated_query_params ;;
  let queryset := filter_by_review_status require_approval queryset in
  let queryset := filter_deprecated (deprecated params) queryset in
  let queryset := filter_nsfw (nsfw params) queryset in
  let queryset := filter_in_categories (included_categories params) queryset in
  let queryset := filter_not_in_categories (excluded_categories params) queryset in
  queryset <~ filter_by_section_q (section params) queryset ;;
  let queryset := filter_by_query (q params) queryset in
  match dict_get ORDER_ARGS (ordering params) with
  | None => raise KeyError
  | Some arg =>
      ret (order_by [Desc o_is_pinned; Asc o_is_deprecated; arg;
                     Desc o_date_updated; Desc o_pk] queryset)
  end.

(** The queries of [prefetch_related("community_listings__categories",
    "community_listings__community")] after [rows] are read: the listings
    of the rows, then the categories and the communities of these
    listings. *)
Definition prefetch_queries (rows : list Package) : list DbQuery :=
  match rows with
  | [] => []
  | _ =>
      PrefetchRelated "community_listings" ::
      (if forallb (λ p, bool_decide (community_listings p = [])) rows then []
       else [PrefetchRelated "community_listings__categories";
             PrefetchRelated "community_listings__community"])
  end.

(** [paginate_queryset]: an invalid page number raises [NotFound]; the
    count and the slice are the queries that read packages. A slice with
    [bottom = top], the page of an empty result, is never sent to the
    database. *)
Definition paginate_queryset (queryset : QuerySet) : View Page :=
  match paginator_page_number query_params with
  | None => raise NotFound
  | Some n =>
      if bool_decide (n < 1) then raise NotFound
      else
        execute CountPackages ;;;
        match get_page queryset n with
        | None => raise NotFound
        | Some page =>
            if bool_decide (slice_bottom (number page)
                            = slice_top (paginator_count page) (number page))
            then ret page
            else
              execute SelectPackages ;;;
              execute_all (prefetch_queries (object_list page)) ;;;
              ret page
        end
  end.

(** [community__identifier=community_id] on a listing. *)
Definition in_community (community_id : string) (l : PackageListing) : bool :=
  match communities db !! community_id with
  | Some c => bool_decide (listing_community l = community_pk c)
  | None => false
  end.

(** A round of the loop of [_get_packages_dicts]: the listing lookup and
    the dict, whose entries read [p.latest]. *)
Definition package_dict (community_id : string) (p : Package) : View PackageDict.t :=
  execute (SelectListing (pk p) community_id) ;;;
  match filter (λ l, in_community community_id l) (community_listings p) with
  | [] => raise DoesNotExist
  | [listing] =>
      match latest p with
      | None => raise AttributeError
      | Some v =>
          ret {| PackageDict.categories := categories listing;
                 PackageDict.community_identifier := community_id;
                 PackageDict.description := description v;
                 PackageDict.download_count := download_count p;
                 PackageDict.icon_url := icon v;
                 PackageDict.is_deprecated := is_deprecated p;
                 PackageDict.is_nsfw := has_nsfw_content listing;
                 PackageDict.is_pinned := is_pinned p;
                 PackageDict.last_updated := date_updated p;
                 PackageDict.namespace := namespace_name p;
                 PackageDict.name := name p;
                 PackageDict.rating_count := rating_count p;
                 PackageDict.size := file_size v |}
      end
  | _ => raise MultipleObjectsReturned
  end.

Definition _get_packages_dicts (package_page : Page) : View (list PackageDict.t) :=
  community_id <~ kwarg "community_id" ;;
  for_each (package_dict community_id) (object_list package_page).

(** [get_serializer] hands the dicts to the response serializer. *)
Definition get_serializer (package_page : Page) : View (list PackageDict.t) :=
  _get_packages_dicts package_page.

(** The items of the [validated_data] dict, in field order. *)
Definition params_items (params : Params) : list (string * Urllib.Value) :=
  [ ("deprecated", Urllib.VBool (deprecated params));
    ("excluded_categories", Urllib.VList (excluded_categories params));
    ("included_categories", Urllib.VList (included_categories params));
    ("nsfw", Urllib.VBool (nsfw params));
    ("ordering", Urllib.VStr (ordering params));
    ("page", Urllib.VInt (page params)) ]
  ++ from_option (λ v, [("q", Urllib.VStr v)]) [] (q params)
  ++ from_option (λ v, [("section", Urllib.VUuid v)]) [] (section params).

(** [params["page"] = n] *)
Definition set_page (params : Params) (n : Z) : Params :=
  {| deprecated := deprecated params;
     excluded_categories := excluded_categories params;
     included_categories := included_categories params;
     nsfw := nsfw params;
     ordering := ordering params;
     page := n;
     q := q params;
     section := section params |}.

Definition sibling_url (base_url : string) (params : Params) (n : Z) : string :=
  base_url +:+ "?" +:+ Urllib.urlencode (params_items (set_page params n)).

Definition _get_sibling_pages (page : Page) : View (option string * option string) :=
  let path := reverse (viewname self) kwargs in
  let base_url := PROTOCOL +:+ PRIMARY_HOST +:+ path in
  params <~ _get_validated_query_params ;;
  let previous_url :=
    if has_previous page
    then Some (sibling_url base_url params (previous_page_number page))
    else None in
  let next_url :=
    if has_next page
    then Some (sibling_url base_url params (next_page_number page))
    else None in
  ret (previous_url, next_url).

(** [list]: the previous and next links the paginator made from the
    request are replaced by the ones made from the validated
    parameters. *)
Definition list_ : View Response :=
  queryset0 <~ get_queryset ;;
  queryset <~ filter_queryset queryset0 ;;
  page <~ paginate_queryset queryset ;;
  serializer <~ get_serializer page ;;
  siblings <~ _get_sibling_pages page ;;
  ret {| count := paginator_count page;
         previous := siblings.1;
         next := siblings.2;
         results := object_list page;
         package_list := serializer |}.

End BasePackageListAPIView.

(** ** An instance of the framework interface for plain query strings

    It reads the query string the way the framework's fields do on plain
    spellings (decimal integers, the canonical uuid text, the usual boolean
    words) and is what the examples below run on. *)

Module Plain.

Definition getlist (data : QueryDict) (key : string) : list string :=
  (filter (λ kv, kv.1 = key) data).*2.

(** [QueryDict.get]: the last value of the key. *)
Definition get (data : QueryDict) (key : string) : option string :=
  last (getlist data key).

(** A missing or blank value is [empty]. *)
Definition get_value (data : QueryDict) (key : string) : option string :=
  match get data key with
  | Some v => if Text.truthy v then Some v else None
  | None => None
  end.

Definition get_list_value (data : QueryDict) (key : string) : option (list string) :=
  match getlist data key with
  | [] => None
  | vs => Some vs
  end.

Definition TRUE_VALUES : list string :=
  ["t"; "T"; "y"; "Y"; "yes"; "Yes"; "YES"; "true"; "True"; "TRUE";
   "on"; "On"; "ON"; "1"].
Definition FALSE_VALUES : list string :=
  ["f"; "F"; "n"; "N"; "no"; "No"; "NO"; "false"; "False"; "FALSE";
   "off"; "Off"; "OFF"; "0"].

Definition boolean (v : string) : option bool :=
  if bool_decide (v ∈ TRUE_VALUES) then Some true
  else if bool_decide (v ∈ FALSE_VALUES) then Some false
  else None.

Fixpoint digits (s : string) (acc : Z) : option Z :=
  match s with
  | EmptyString => Some acc
  | String c s' =>
      let n := nat_of_ascii c in
      if ((48 <=? n) && (n <=? 57))%nat%bool
      then digits s' (10 * acc + Z.of_nat (n - 48))
      else None
  end.

(** A decimal integer with an optional sign. *)
Definition integer (v : string) : option Z :=
  match v with
  | EmptyString => None
  | String "-"%char (String _ _ as ds) => Z.opp <$> digits ds 0
  | String "+"%char (String _ _ as ds) => digits ds 0
  | String "-"%char EmptyString | String "+"%char EmptyString => None
  | _ => digits v 0
  end.

Definition is_space (c : ascii) : bool :=
  let n := nat_of_ascii c in
  ((n =? 32) || (9 <=? n) && (n <=? 13))%nat%bool.

Fixpoint lstrip (s : string) : string :=
  match s with
  | EmptyString => EmptyString
  | String c s' => if is_space c then lstrip s' else s
  end.

Fixpoint rstrip (s : string) : string :=
  match s with
  | EmptyString => EmptyString
  | String c s' =>
      match rstrip s' with
      | EmptyString => if is_space c then EmptyString else String c EmptyString
      | r => String c r
      end
  end.

(** A text with the surrounding whitespace trimmed; a blank text is
    invalid. *)
Definition char (v : string) : option string :=
  match rstrip (lstrip v) with
  | EmptyString => None
  | t => Some t
  end.

Definition is_hex (c : ascii) : bool :=
  let n := nat_of_ascii c in
  ((48 <=? n) && (n <=? 57) || (97 <=? n) && (n <=? 102))%nat%bool.

Fixpoint all_hex (s : string) : bool :=
  match s with
  | EmptyString => true
  | String c s' => is_hex c && all_hex s'
  end.

(** The canonical 8-4-4-4-12 lower-case spelling of a uuid. *)
Definition uuid (v : string) : option string :=
  match Text.split "-"%char v with
  | [a; b; c; d; e] =>
      if (all_hex a && all_hex b && all_hex c && all_hex d && all_hex e
          && bool_decide ((String.length <$> [a; b; c; d; e]) = [8; 4; 4; 4; 12]%nat))%bool
      then Some v else None
  | _ => None
  end.

(** The paginator reads [page] from the query string itself, 1 when the
    key is missing. *)
Definition page_number (data : QueryDict) : option Z :=
  match get data "page" with
  | None => Some 1
  | Some v => integer v
  end.

#[export] Instance rest_framework : RestFramework :=
  Build_RestFramework get_value get_list_value boolean integer char uuid page_number.

#[export] Instance url_conf : UrlConf := {|
  PROTOCOL := "https://";
  PRIMARY_HOST := "thunderstore.io";
  reverse := λ viewname kwargs,
    "/api/cyberstorm/package/"
    +:+ Urllib.join "/" kwargs.*2 +:+ "/";
|}.

End Plain.

(** ** The v1 package cache: regeneration and conditional retrieval

    [thunderstore/repository/models/cache.py] and the v1 viewset are
    exercised by [test_api_v1.py]; the definitions of this module follow the
    contracts the specification gives for them. *)

Module APIV1PackageCache.

(** Modelled from the spec: the [APIV1PackageCache] row, whose model class
    is missing. [last_modified] is a time in microseconds since the
    epoch; [content] is the compressed payload. *)
Record CacheEntry := {
  cache_pk : Z;
  community_ref : Z;
  content : string;
  content_type : string;
  content_encoding : string;
  last_modified : Z;
  cache_is_active : bool;
}.

#[global] Instance CacheEntry_eq_dec : EqDecision CacheEntry.
Proof. solve_decision. Defined.

(** The table of cache entries, oldest first; rows are only added. *)
Abbreviation Store := (list CacheEntry).

(** Modelled from the spec: regenerating "deactivates the previous entry
    for that community". *)
Definition deactivate (community : Z) (e : CacheEntry) : CacheEntry :=
  if bool_decide (community_ref e = community)
  then {| cache_pk := cache_pk e; community_ref := community_ref e;
          content := content e; content_type := content_type e;
          content_encoding := content_encoding e;
          last_modified := last_modified e; cache_is_active := false |}
  else e.

(** Modelled from the spec: [regenerate(community_ref) -> CacheEntry],
    whose task and model method are missing. The new entry is stamped
    with the current time [now], marked active, and the previous entries
    of the community are deactivated. [payload] is the compressed
    serialization of the packages visible in the community. *)
Definition regenerate (now : Z) (community : Z) (payload : string) (store : Store)
  : CacheEntry * Store :=
  let entry :=
    {| cache_pk := Z.of_nat (length store) + 1;
       community_ref := community;
       content := payload;
       content_type := "application/json";
       content_encoding := "gzip";
       last_modified := now;
       cache_is_active := true |} in
  (entry, (deactivate community <$> store) ++ [entry])%list.

(** Modelled from the spec: [get_latest(community_ref) ->
    Option<CacheEntry>], the most recent active entry of the community. *)
Definition get_latest (community : Z) (store : Store) : option CacheEntry :=
  last (filter (λ e, community_ref e = community ∧ cache_is_active e = true) store).

(** A regeneration request: the time it runs at, the community and the
    payload it stores. *)
Record Regeneration := {
  at_time : Z;
  for_community : Z;
  with_payload : string;
}.

(** The store after a sequence of regenerations, starting empty. *)
Definition run (rs : list Regeneration) : Store :=
  foldl (λ store r,
           (regenerate (at_time r) (for_community r) (with_payload r) store).2)
        [] rs.

(** Modelled from the spec: a timestamp "truncated to whole seconds", for a
    time in microseconds. *)
Definition seconds (t : Z) : Z := t / 1000000.

(** *** HTTP dates *)

Definition two_digits (n : Z) : string :=
  (if bool_decide (n < 10) then "0" else "") +:+ pretty n.

Definition day_name (d : Z) : string :=
  nth (Z.to_nat d) ["Mon"; "Tue"; "Wed"; "Thu"; "Fri"; "Sat"; "Sun"] "".

Definition month_name (m : Z) : string :=
  nth (Z.to_nat (m - 1))
      ["Jan"; "Feb"; "Mar"; "Apr"; "May"; "Jun";
       "Jul"; "Aug"; "Sep"; "Oct"; "Nov"; "Dec"] "".

(** The civil date (year, month, day) of a day number counted from
    1970-01-01. *)
Definition civil_from_days (days : Z) : Z * Z * Z :=
  let z := days + 719468 in
  let era := z / 146097 in
  let doe := z - era * 146097 in
  let yoe := (doe - doe / 1460 + doe / 36524 - doe / 146096) / 365 in
  let doy := doe - (365 * yoe + yoe / 4 - yoe / 100) in
  let mp := (5 * doy + 2) / 153 in
  let d := doy - (153 * mp + 2) / 5 + 1 in
  let m := if bool_decide (mp < 10) then mp + 3 else mp - 9 in
  let y := yoe + era * 400 + (if bool_decide (m ≤ 2) then 1 else 0) in
  (y, m, d).

(** Modelled from the spec: the HTTP-date text of a time in whole
    seconds, as in [Thu, 01 Jan 1970 00:00:00 GMT]. *)
Definition http_date (epoch_seconds : Z) : string :=
  let days := epoch_seconds / 86400 in
  let rem := epoch_seconds mod 86400 in
  let '(y, m, d) := civil_from_days days in
  day_name ((days + 3) mod 7) +:+ ", " +:+ two_digits d +:+ " "
  +:+ month_name m +:+ " " +:+ pretty y +:+ " "
  +:+ two_digits (rem / 3600) +:+ ":" +:+ two_digits (rem mod 3600 / 60)
  +:+ ":" +:+ two_digits (rem mod 60) +:+ " GMT".

(** *** The cached endpoint *)

Record HttpResponse := {
  status : Z;
  body : option string;
  headers : list (string * string);
}.

(** Modelled from the spec: the caller of [get_latest], the v1 package
    list endpoint, whose viewset is missing. [if_modified_since] is the
    time of the request header, when the request has one. *)
Definition package_list (store : Store) (community : Z)
    (if_modified_since : option Z) : HttpResponse :=
  match get_latest community store with
  | None => {| status := 503; body := None; headers := [] |}
  | Some cache =>
      let not_modified :=
        match if_modified_since with
        | Some t => bool_decide (seconds (last_modified cache) ≤ seconds t)
        | None => false
        end in
      if not_modified
      then {| status := 304; body := None; headers := [] |}
      else {| status := 200;
              body := Some (content cache);
              headers :=
                [ ("Content-Type", content_type cache);
                  ("Content-Encoding", content_encoding cache);
                  ("Last-Modified", http_date (seconds (last_modified cache))) ] |}
  end.

End APIV1PackageCache.

(** ** The free-text filter as the specification words it

    The specification describes [filter_by_query] as splitting the query on
    whitespace and requiring every token to match one of the three fields.
    These definitions follow that wording, to be compared with the filter
    of the source. *)

Module Claimed.

Definition is_whitespace (c : ascii) : bool :=
  let n := nat_of_ascii c in
  ((n =? 32) || (9 <=? n) && (n <=? 13))%nat%bool.

(** The parts between whitespace characters, empty ones included. *)
Fixpoint split_whitespace (s : string) : list string :=
  match s with
  | EmptyString => [EmptyString]
  | String c s' =>
      if is_whitespace c then EmptyString :: split_whitespace s'
      else match split_whitespace s' with
           | [] => [String c EmptyString]
           | w :: ws => String c w :: ws
           end
  end.

Definition tokens (query : string) : list string :=
  filter (λ x, Text.truthy x) (split_whitespace query).

(** The token matches the name, the owner name or the description. *)
Definition token_matches (p : Package) (token : string) : bool :=
  existsb (λ f, q_holds (Q_icontains f token) p) search_fields.

(** AND across tokens, OR across fields. *)
Definition every_token_matches (query : string) (p : Package) : bool :=
  forallb (token_matches p) (tokens query).

(** Modelled from the spec: the review-status rule of a community, read on
    the listing the package has in that community: approved when the
    community requires approval, approved or unreviewed when it does
    not. *)
Definition review_status_allows (community : Community) (p : Package) : bool :=
  existsb (λ l, bool_decide (listing_community l = community_pk community)
                && (if require_package_listing_approval community
                    then bool_decide (review_status l = approved)
                    else bool_decide (review_status l = approved)
                         || bool_decide (review_status l = unreviewed)))
          (community_listings p).

End Claimed.

(** ** The vocabulary of the statements *)

Section Statements.
Context `{RestFramework}.
Variable db : Database.
Variable self : ViewClass.
Variable kwargs : list (string * string).

(** The filters of [filter_queryset], in the order they are applied. *)
Definition apply_filters (require_approval : bool) (params : Params)
    (queryset : QuerySet) : QuerySet :=
  filter_by_query (q params)
    (filter_by_section db (section params)
      (filter_not_in_categories (excluded_categories params)
        (filter_in_categories (included_categories params)
          (filter_nsfw (nsfw params)
            (filter_deprecated (deprecated params)
              (filter_by_review_status require_approval queryset)))))).

(** The arguments [filter_queryset] gives to [order_by]. *)
Definition order_args (arg : OrderArg) : list OrderArg :=
  [Desc o_is_pinned; Asc o_is_deprecated; arg; Desc o_date_updated; Desc o_pk].

(** A request the serializer cannot accept: an ordering outside the keys
    of [ORDER_ARGS], a category id that is no integer, a page that is no
    integer or is below 1, or a boolean, text or uuid the framework
    cannot convert. *)
Definition malformed (data : QueryDict) : Prop :=
  (∃ v, get_value data "ordering" = Some v ∧
        v ∉ ["last-updated"; "most-downloaded"; "newest"; "top-rated"])
  ∨ (∃ vs v, get_list_value data "included_categories" = Some vs ∧ v ∈ vs ∧
             integer_to_internal_value v = None)
  ∨ (∃ vs v, get_list_value data "excluded_categories" = Some vs ∧ v ∈ vs ∧
             integer_to_internal_value v = None)
  ∨ (∃ v, get_value data "page" = Some v ∧
          ∀ n, integer_to_internal_value v = Some n → n < 1)
  ∨ (∃ v, get_value data "deprecated" = Some v ∧ boolean_to_internal_value v = None)
  ∨ (∃ v, get_value data "nsfw" = Some v ∧ boolean_to_internal_value v = None)
  ∨ (∃ v, get_value data "q" = Some v ∧ char_to_internal_value v = None)
  ∨ (∃ v, get_value data "section" = Some v ∧ uuid_to_internal_value v = None).

(** The url pattern gives the view the keyword arguments it reads, and a
    namespace lookup that ignores case finds at most one namespace. *)
Definition routed : Prop :=
  is_Some (dict_get kwargs "community_id") ∧
  (self = NamespacePackageListAPIView →
   ∃ ns, dict_get kwargs "namespace_id" = Some ns ∧
         (length (filter (λ n, Text.upper n = Text.upper ns) (namespaces db)) ≤ 1)%nat).

(** The address of the view, before the query string. *)
Definition view_url `{UrlConf} : string :=
  PROTOCOL +:+ PRIMARY_HOST +:+ reverse (viewname self) kwargs.

(** The links [_get_sibling_pages] makes for a page. *)
Definition previous_link `{UrlConf} (params : Params) (page : PackageListPaginator.Page)
  : option string :=
  if PackageListPaginator.has_previous page
  then Some (sibling_url view_url params (PackageListPaginator.number page - 1))
  else None.

Definition next_link `{UrlConf} (params : Params) (page : PackageListPaginator.Page)
  : option string :=
  if PackageListPaginator.has_next page
  then Some (sibling_url view_url params (PackageListPaginator.number page + 1))
  else None.

(** The [k=v] pairs of the query string of a sibling link. *)
Definition link_pairs (params : Params) (n : Z) : list string :=
  Urllib.query_pairs (params_items (set_page params n)).

(** Two sets of validated parameters that differ at most in the order of
    the category lists. *)
Definition same_up_to_order (p1 p2 : Params) : Prop :=
  deprecated p1 = deprecated p2 ∧
  excluded_categories p1 ≡ₚ excluded_categories p2 ∧
  included_categories p1 ≡ₚ included_categories p2 ∧
  nsfw p1 = nsfw p2 ∧
  ordering p1 = ordering p2 ∧
  page p1 = page p2 ∧
  q p1 = q p2 ∧
  section p1 = section p2.

(** The validated parameters of the same request without its [section]
    parameter. *)
Definition without_section (params : Params) : Params :=
  {| deprecated := deprecated params;
     excluded_categories := excluded_categories params;
     included_categories := included_categories params;
     nsfw := nsfw params;
     ordering := ordering params;
     page := page params;
     q := q params;
     section := None |}.

End Statements.

(** The order the specification gives the listing: the selected key of
    each ordering name, and the chain of criteria from the pinned flag down
    to the identifier. *)
Definition selected_key (ordering : string) (p : Package) : option Z :=
  if String.eqb ordering "last-updated" then Some (date_updated p)
  else if String.eqb ordering "most-downloaded" then download_count p
  else if String.eqb ordering "newest" then Some (date_created p)
  else Some (rating_count p).

(** [x] comes strictly before [y] in descending order; a missing value
    (NULL) comes before every value. *)
Definition key_gt (x y : option Z) : Prop :=
  match x, y with
  | Some x, Some y => y < x
  | None, Some _ => True
  | _, None => False
  end.

(** [a] may stand before [b]: pinned first, deprecated last, then the
    selected key descending, then last-updated descending, then the
    identifier descending. *)
Definition listing_order (ordering : string) (a b : Package) : Prop :=
  (is_pinned a = true ∧ is_pinned b = false) ∨
  (is_pinned a = is_pinned b ∧
   ((is_deprecated a = false ∧ is_deprecated b = true) ∨
    (is_deprecated a = is_deprecated b ∧
     (key_gt (selected_key ordering a) (selected_key ordering b) ∨
      (selected_key ordering a = selected_key ordering b ∧
       (date_updated b < date_updated a ∨
        (date_updated a = date_updated b ∧ pk b ≤ pk a))))))).

(** ** Example data *)

Module Example.

Definition listing (community : Z) (st : PackageListingReviewStatus)
    (nsfw_content : bool) (cats : list Z) : PackageListing :=
  {| listing_community := community; review_status := st;
     has_nsfw_content := nsfw_content; categories := cats |}.

Definition version (text : string) (n : Z) : PackageVersion :=
  {| description := text; downloads := n; file_size := 1024;
     icon := Some "/media/icon.png" |}.

(** An active package of community 1 with one version. *)
Definition package (id : Z) (nm owner text : string) (deprecated_ nsfw_ : bool)
    (updated : Z) : Package :=
  {| pk := id; name := nm; owner_name := owner; namespace_name := owner;
     is_active := true; is_deprecated := deprecated_; is_pinned := false;
     date_created := updated; date_updated := updated;
     latest := Some (version text id);
     versions := [version text id];
     package_ratings := 0;
     community_listings := [listing 1 approved nsfw_ [1]] |}.

(** A package named "foo"; nothing of it contains "bar". *)
Definition foo_package : Package := package 1 "foo" "team" "a mod" false false 0.

(** P1 is deprecated, P2 has NSFW content, P3 is plain. *)
Definition P1 : Package := package 1 "Old" "team" "an old mod" true false 5.
Definition P2 : Package := package 2 "Spicy" "team" "a spicy mod" false true 6.
Definition P3 : Package := package 3 "Plain" "other" "a plain mod" false false 7.

Definition community : Community :=
  {| community_pk := 1; require_package_listing_approval := false |}.

Definition db : Database :=
  {| packages := [P1; P2; P3];
     communities := {[ "riskofrain2" := community ]};
     namespaces := ["team"; "other"];
     sections := ∅ |}.

(** 45 plain packages: three pages. *)
Definition numbered (i : nat) : Package :=
  package (Z.of_nat i) "Mod" "team" "one of many" false false (Z.of_nat i).

Definition big_db : Database :=
  {| packages := numbered <$> seq 1 45;
     communities := {[ "riskofrain2" := community ]};
     namespaces := ["team"];
     sections := ∅ |}.

Definition kwargs : list (string * string) := [("community_id", "riskofrain2")].

(** A uuid no section has. *)
Definition missing_uuid : string := "6f1b2a3c-0000-4000-8000-0123456789ab".

(** Three regenerations of the cache of community 1, one second apart
    at least, and one of community 2. *)
Definition regenerations : list APIV1PackageCache.Regeneration :=
  [ {| APIV1PackageCache.at_time := 1700000000250000;
       APIV1PackageCache.for_community := 1;
       APIV1PackageCache.with_payload := "first" |};
    {| APIV1PackageCache.at_time := 1700000000900000;
       APIV1PackageCache.for_community := 2;
       APIV1PackageCache.with_payload := "other" |};
    {| APIV1PackageCache.at_time := 1700000001250000;
       APIV1PackageCache.for_community := 1;
       APIV1PackageCache.with_payload := "second" |} ].

(** A request for deprecated and NSFW packages too, most downloaded
    first. *)
Definition request_all : QueryDict :=
  [("deprecated", "true"); ("nsfw", "true"); ("ordering", "most-downloaded")].

(** The second page, with category ids given out of order. *)
Definition request_page_2 : QueryDict :=
  [("page", "2"); ("included_categories", "3"); ("included_categories", "1")].

(** A request naming a section that does not exist. *)
Definition request_missing_section : QueryDict := [("section", missing_uuid)].

(** A request with an ordering the view does not know. *)
Definition request_bad_ordering : QueryDict := [("ordering", "alphabetical")].

(** A community that requires the approval of listings, and a package
    whose listing there is rejected while its listing in community 2 is
    approved. *)
Definition moderated : Community :=
  {| community_pk := 1; require_package_listing_approval := true |}.

Definition cross_listed : Package :=
  {| pk := 4; name := "Elsewhere"; owner_name := "team"; namespace_name := "team";
     is_active := true; is_deprecated := false; is_pinned := false;
     date_created := 8; date_updated := 8;
     latest := Some (version "a mod of two communities" 4);
     versions := [version "a mod of two communities" 4];
     package_ratings := 0;
     community_listings := [listing 1 rejected false [1]; listing 2 approved false [1]] |}.

Definition moderated_db : Database :=
  {| packages := [cross_listed];
     communities := {[ "riskofrain2" := moderated ]};
     namespaces := ["team"];
     sections := ∅ |}.

(** A package without a latest version, and one listed twice in
    community 1. *)
Definition unversioned : Package :=
  {| pk := 5; name := "Empty"; owner_name := "team"; namespace_name := "team";
     is_active := true; is_deprecated := false; is_pinned := false;
     date_created := 9; date_updated := 9;
     latest := None;
     versions := [];
     package_ratings := 0;
     community_listings := [listing 1 approved false [1]] |}.

Definition listed_twice : Package :=
  {| pk := 6; name := "Twice"; owner_name := "team"; namespace_name := "team";
     is_active := true; is_deprecated := false; is_pinned := false;
     date_created := 10; date_updated := 10;
     latest := Some (version "listed twice" 6);
     versions := [version "listed twice" 6];
     package_ratings := 0;
     community_listings := [listing 1 approved false [1]; listing 1 approved false [2]] |}.

Definition unversioned_db : Database :=
  {| packages := [unversioned];
     communities := {[ "riskofrain2" := community ]};
     namespaces := ["team"];
     sections := ∅ |}.

Definition listed_twice_db : Database :=
  {| packages := [listed_twice];
     communities := {[ "riskofrain2" := community ]};
     namespaces := ["team"];
     sections := ∅ |}.

End Example.

(** ** Team views: [TeamRestrictedAPIView] *)

Module TeamViews.

(** A row of [Team], with what [check_permissions] reads of it. *)
Record Team := {
  team_name : string;
  team_is_active : bool;
}.

(** How a permission check ends: it passes, or it raises. *)
Inductive Outcome :=
| Allowed
| NotAuthenticated          (* denied by IsAuthenticated *)
| TeamNotFound              (* get_object_or_404 *)
| TeamAmbiguous             (* MultipleObjectsReturned *)
| PermissionDenied.

Section TeamRestrictedAPIView.
(** The users of the site; [request.user] is [None] for an anonymous
    request. *)
Variable User : Type.
(** [Team.can_user_access], a method of the model, which the view only
    calls. *)
Variable can_user_access : Team → User → bool.

(** [Team.objects.exclude(is_active=False)] *)
Definition active_teams (teams : list Team) : list Team :=
  filter (λ t, team_is_active t) teams.

(** [check_permissions]: the result, and whether the team table was
    queried. The permission class runs first, then the team is looked up
    among the active teams by [name__iexact], then membership is asked. *)
Definition check_permissions (teams : list Team) (team_id : string)
    (user : option User) : Outcome * bool :=
  match user with
  | None => (NotAuthenticated, false)
  | Some u =>
      match filter (λ t, Text.upper (team_name t) = Text.upper team_id)
                   (active_teams teams) with
      | [] => (TeamNotFound, true)
      | [team] =>
          if can_user_access team u then (Allowed, true)
          else (PermissionDenied, true)
      | _ => (TeamAmbiguous, true)
      end
  end.

End TeamRestrictedAPIView.

End TeamViews.

(** ** More vocabulary of the statements *)

(** Some listing of the package has a category among [ids]. *)
Definition has_category (ids : list Z) (p : Package) : Prop :=
  ∃ l c, l ∈ community_listings p ∧ c ∈ categories l ∧ c ∈ ids.

(** The package is selected by the free-text query: no query, a query
    without parts, or some part found in some search field. *)
Definition query_selects (query : option string) (p : Package) : Prop :=
  match query with
  | None => True
  | Some q =>
      query_parts q = [] ∨
      ∃ part, part ∈ query_parts q ∧ Claimed.token_matches p part = true
  end.

(** The package is selected by the section: no section named, a section
    that does not exist, or the section's required and excluded
    categories. *)
Definition section_selects (db : Database) (u : option string) (p : Package) : Prop :=
  match u with
  | None => True
  | Some u =>
      match sections db !! u with
      | None => True
      | Some s =>
          (require_categories s = [] ∨ has_category (require_categories s) p) ∧
          ¬ has_category (exclude_categories s) p
      end
  end.

(** What a package has to satisfy to pass all the filters of
    [filter_queryset]. *)
Definition passes (db : Database) (require_approval : bool) (params : Params)
    (p : Package) : Prop :=
  (∃ l, l ∈ community_listings p ∧
        (review_status l = approved ∨
         (require_approval = false ∧ review_status l = unreviewed))) ∧
  (deprecated params = false → is_deprecated p = false) ∧
  (nsfw params = false → any_listing has_nsfw_content p = false) ∧
  (included_categories params = [] ∨ has_category (included_categories params) p) ∧
  ¬ has_category (excluded_categories params) p ∧
  section_selects db (section params) p ∧
  query_selects (q params) p.

(** Every character of the text is a space. *)
Fixpoint all_spaces (s : string) : bool :=
  match s with
  | EmptyString => true
  | String c s' => Ascii.eqb c " "%char && all_spaces s'
  end.

(** The characters of a text. *)
Fixpoint chars (s : string) : list ascii :=
  match s with
  | EmptyString => []
  | String c s' => c :: chars s'
  end.

(** The characters a quoted text is made of. *)
Definition url_safe (c : ascii) : Prop :=
  Urllib.always_safe c = true ∨ c = "+"%char ∨ c = "%"%char.

(** All the pages of a queryset, first to last. *)
Definition all_pages (queryset : list Package) : list (option PackageListPaginator.Page) :=
  (λ i, PackageListPaginator.get_page queryset (Z.of_nat i))
    <$> seq 1 (Z.to_nat (PackageListPaginator.num_pages (Z.of_nat (length queryset)))).

(** The rows of a page that may be missing. *)
Definition page_rows (page : option PackageListPaginator.Page) : list Package :=
  from_option PackageListPaginator.object_list [] page.

(** The lookups [get_queryset] runs, for the community [cid] and, in the
    namespace view, the namespace [ns] of the url. *)
Definition queryset_lookups (self : ViewClass) (cid ns : string) : list DbQuery :=
  match self with
  | CommunityPackageListAPIView => [SelectCommunity cid]
  | NamespacePackageListAPIView => [SelectNamespace ns; SelectCommunity cid]
  end.

(** The listing lookups of [_get_packages_dicts], one for each row. *)
Definition listing_lookups (community_id : string) (rows : list Package)
  : list DbQuery :=
  (λ p, SelectListing (pk p) community_id) <$> rows.

(** The listings of a package in the community [community_id]. *)
Definition listings_in (db : Database) (community_id : string) (p : Package)
  : list PackageListing :=
  filter (λ l, in_community db community_id l) (community_listings p).

(** The dict [d] is the one made of the row [p], its one listing in the
    community and its latest version. *)
Definition renders (db : Database) (community_id : string) (p : Package)
    (d : PackageDict.t) : Prop :=
  ∃ listing v,
    listings_in db community_id p = [listing] ∧
    latest p = Some v ∧
    PackageDict.categories d = categories listing ∧
    PackageDict.community_identifier d = community_id ∧
    PackageDict.description d = description v ∧
    PackageDict.download_count d = download_count p ∧
    PackageDict.icon_url d = icon v ∧
    PackageDict.is_deprecated d = is_deprecated p ∧
    PackageDict.is_nsfw d = has_nsfw_content listing ∧
    PackageDict.is_pinned d = is_pinned p ∧
    PackageDict.last_updated d = date_updated p ∧
    PackageDict.namespace d = namespace_name p ∧
    PackageDict.name d = name p ∧
    PackageDict.rating_count d = rating_count p ∧
    PackageDict.size d = file_size v.

(** * Properties *)

(** ** The queryset filters *)

Lemma filter_bool_cons {A} (f : A → bool) x l :
  filter (λ y, f y) (x :: l) = if f x then x :: filter (λ y, f y) l else filter (λ y, f y) l.
Proof. rewrite filter_cons. destruct (f x); case_decide; done. Qed.

Lemma any_listing_true cond p :
  any_listing cond p = true ↔ ∃ l, l ∈ community_listings p ∧ cond l = true.
Proof.
  unfold any_listing. rewrite existsb_exists.
  split; intros (l & Hl & Hc); exists l; split; auto; by apply list_elem_of_In.
Qed.

Lemma q_holds_q_and a b p : q_holds (q_and a b) p = q_holds a p && q_holds b p.
Proof.
  destruct a, b; simpl; rewrite ?andb_true_r; reflexivity.
Qed.

Lemma q_and_not_nonempty a x : q_and a (Q_not x) ≠ Q_empty.
Proof. destruct a; discriminate. Qed.

Lemma add_part_holds acc part p :
  q_holds (add_part acc part) p
  = q_holds acc p && negb (Claimed.token_matches p part).
Proof.
  unfold add_part, Claimed.token_matches, search_fields. cbn [foldl existsb].
  rewrite !q_holds_q_and. cbn [q_holds].
  rewrite orb_false_r, !negb_orb, !andb_assoc. reflexivity.
Qed.

Lemma add_part_nonempty acc part : add_part acc part ≠ Q_empty.
Proof. unfold add_part, search_fields. cbn [foldl]. apply q_and_not_nonempty. Qed.

Lemma foldl_add_part_holds parts acc p :
  q_holds (foldl add_part acc parts) p
  = q_holds acc p && negb (existsb (Claimed.token_matches p) parts).
Proof.
  revert acc. induction parts as [|part parts IH]; intros acc; cbn [foldl existsb].
  - by rewrite andb_true_r.
  - rewrite IH, add_part_holds, negb_orb, andb_assoc. reflexivity.
Qed.

Lemma foldl_add_part_nonempty parts acc :
  acc ≠ Q_empty → foldl add_part acc parts ≠ Q_empty.
Proof.
  revert acc. induction parts as [|part parts IH]; intros acc Hacc; cbn [foldl]; [done|].
  apply IH, add_part_nonempty.
Qed.

Lemma icontains_query_holds parts p :
  q_holds (icontains_query parts) p = negb (existsb (Claimed.token_matches p) parts).
Proof. apply (foldl_add_part_holds parts Q_empty). Qed.

Lemma icontains_query_nonempty parts :
  parts ≠ [] → icontains_query parts ≠ Q_empty.
Proof.
  destruct parts as [|part parts]; [done|]. intros _.
  apply (foldl_add_part_nonempty parts), add_part_nonempty.
Qed.

Lemma token_matches_true p part :
  Claimed.token_matches p part = true ↔
  ∃ f t, f ∈ search_fields ∧ field_text f p = Some t ∧ Text.icontains t part = true.
Proof.
  unfold Claimed.token_matches. rewrite existsb_exists. split.
  - intros (f & Hf & Hm). cbn [q_holds] in Hm.
    destruct (field_text f p) as [t|] eqn:Ht; [|done].
    exists f, t. split_and!; auto. by apply list_elem_of_In.
  - intros (f & t & Hf & Ht & Hm). exists f. split; [by apply list_elem_of_In|].
    cbn [q_holds]. by rewrite Ht.
Qed.

(** C1 (as the code has it): [filter_by_query] splits the query on the
    space character, drops the empty parts, and keeps exactly the packages
    of the queryset for which at least one part is contained, ignoring case,
    in the name, the owner name or the latest description; with no query, an
    empty query or a query of spaces only, every package is kept. *)
Theorem filter_by_query_keeps_any_part_match (query : option string)
    (queryset : QuerySet) (p : Package) :
  p ∈ filter_by_query query queryset ↔
  p ∈ queryset ∧
  match query with
  | None => True
  | Some q =>
      query_parts q = [] ∨
      ∃ part f t, part ∈ query_parts q ∧ f ∈ search_fields ∧
                  field_text f p = Some t ∧ Text.icontains t part = true
  end.
Proof.
  destruct query as [q|]; cbn [filter_by_query]; [|naive_solver].
  destruct (Text.truthy q) eqn:Hq.
  - unfold distinct. rewrite elem_of_remove_dups.
    destruct (query_parts q) as [|part parts] eqn:Hparts.
    + cbn. naive_solver.
    + assert (Hne : icontains_query (part :: parts) ≠ Q_empty)
        by by apply icontains_query_nonempty.
      assert (Hex : exclude (icontains_query (part :: parts)) queryset
                    = filter (λ p, negb (q_holds (icontains_query (part :: parts)) p)) queryset).
      { unfold exclude. by destruct (icontains_query (part :: parts)). }
      rewrite Hex, list_elem_of_filter, icontains_query_holds, negb_involutive.
      split.
      * intros [Hm Hin]. split; [done|]. right.
        apply Is_true_true, existsb_exists in Hm as (x & Hx & Hm).
        apply token_matches_true in Hm as (f & t & ? & ? & ?).
        exists x, f, t. split_and!; auto. by apply list_elem_of_In.
      * intros [Hin [?|(x & f & t & Hx & Hf & Ht & Hm)]]; [done|].
        split; [|done]. apply Is_true_true, existsb_exists.
        exists x. split; [by apply list_elem_of_In|].
        apply token_matches_true. eauto.
  - destruct q; [|done]. cbn. naive_solver.
Qed.

(** C1 (as claimed) fails: for the query "foo bar" the token "bar" matches
    no field of the package, yet the package is returned. *)
Lemma filter_by_query_not_every_token :
  Claimed.tokens "foo bar" = ["foo"; "bar"] ∧
  Claimed.token_matches Example.foo_package "bar" = false ∧
  Claimed.every_token_matches "foo bar" Example.foo_package = false ∧
  filter_by_query (Some "foo bar") [Example.foo_package] = [Example.foo_package].
Proof. vm_compute. repeat split. Qed.



Lemma filter_deprecated_elem show queryset p :
  p ∈ filter_deprecated show queryset ↔
  p ∈ queryset ∧ (show = false → is_deprecated p = false).
Proof.
  unfold filter_deprecated. destruct show; [naive_solver|].
  rewrite list_elem_of_filter. destruct (is_deprecated p); cbn; naive_solver.
Qed.

Lemma filter_nsfw_elem show queryset p :
  p ∈ filter_nsfw show queryset ↔
  p ∈ queryset ∧ (show = false → any_listing has_nsfw_content p = false).
Proof.
  unfold filter_nsfw. destruct show; [naive_solver|].
  rewrite list_elem_of_filter.
  destruct (any_listing has_nsfw_content p); cbn; naive_solver.
Qed.

Lemma filter_in_categories_subset ids queryset p :
  p ∈ filter_in_categories ids queryset → p ∈ queryset.
Proof.
  unfold filter_in_categories. destruct ids; [done|].
  rewrite list_elem_of_filter. tauto.
Qed.

Lemma filter_not_in_categories_subset ids queryset p :
  p ∈ filter_not_in_categories ids queryset → p ∈ queryset.
Proof.
  unfold filter_not_in_categories. destruct ids; [done|].
  rewrite list_elem_of_filter. tauto.
Qed.

Lemma filter_by_section_subset db u queryset p :
  p ∈ filter_by_section db u queryset → p ∈ queryset.
Proof.
  unfold filter_by_section. destruct u as [u|]; [|done].
  destruct (sections db !! u); cbn;
    eauto using filter_in_categories_subset, filter_not_in_categories_subset.
Qed.

Lemma filter_by_query_subset query queryset p :
  p ∈ filter_by_query query queryset → p ∈ queryset.
Proof.
  unfold filter_by_query. destruct query as [q|]; [|done].
  destruct (Text.truthy q); [|done].
  unfold distinct, exclude. rewrite elem_of_remove_dups.
  destruct (icontains_query _); rewrite ?list_elem_of_filter; tauto.
Qed.

(** ** Ordering *)

Lemma compare_null_antisym a b : compare_null b a = CompOpp (compare_null a b).
Proof. destruct a, b; cbn; auto using Z.compare_antisym. Qed.

Lemma compare_null_eq a b : compare_null a b = Eq → a = b.
Proof.
  destruct a, b; cbn; try done. intros Hc. by apply Z.compare_eq in Hc as ->.
Qed.

Lemma compare_null_lt_trans a b c :
  compare_null a b = Lt → compare_null b c = Lt → compare_null a c = Lt.
Proof.
  destruct a, b, c; cbn; try done. rewrite !Z.compare_lt_iff. lia.
Qed.

Lemma compare_arg_antisym arg a b :
  compare_arg arg b a = CompOpp (compare_arg arg a b).
Proof. destruct arg; cbn; apply compare_null_antisym. Qed.

Lemma compare_arg_eq_l arg a b c :
  compare_arg arg a b = Eq → compare_arg arg a c = compare_arg arg b c.
Proof. destruct arg; cbn; intros Hc; apply compare_null_eq in Hc; congruence. Qed.

Lemma compare_arg_eq_r arg a b c :
  compare_arg arg b c = Eq → compare_arg arg a b = compare_arg arg a c.
Proof. destruct arg; cbn; intros Hc; apply compare_null_eq in Hc; congruence. Qed.

Lemma compare_arg_lt_trans arg a b c :
  compare_arg arg a b = Lt → compare_arg arg b c = Lt → compare_arg arg a c = Lt.
Proof. destruct arg; cbn; eauto using compare_null_lt_trans. Qed.

Lemma compare_by_antisym args a b :
  compare_by args b a = CompOpp (compare_by args a b).
Proof.
  induction args as [|arg args IH]; cbn; [done|].
  rewrite (compare_arg_antisym arg a b).
  destruct (compare_arg arg a b); cbn; auto.
Qed.

Lemma compare_by_eq_l args a b c :
  compare_by args a b = Eq → compare_by args a c = compare_by args b c.
Proof.
  induction args as [|arg args IH]; cbn; [done|].
  destruct (compare_arg arg a b) eqn:Hab; try done.
  intros Hrest. rewrite (compare_arg_eq_l arg a b c Hab), (IH Hrest). done.
Qed.

Lemma compare_by_eq_r args a b c :
  compare_by args b c = Eq → compare_by args a b = compare_by args a c.
Proof.
  induction args as [|arg args IH]; cbn; [done|].
  destruct (compare_arg arg b c) eqn:Hbc; try done.
  intros Hrest. rewrite (compare_arg_eq_r arg a b c Hbc), (IH Hrest). done.
Qed.

Lemma compare_by_lt_trans args a b c :
  compare_by args a b = Lt → compare_by args b c = Lt → compare_by args a c = Lt.
Proof.
  induction args as [|arg args IH]; cbn; [done|].
  destruct (compare_arg arg a b) eqn:Hab; try done.
  - rewrite (compare_arg_eq_l arg a b c Hab).
    destruct (compare_arg arg b c); auto.
  - destruct (compare_arg arg b c) eqn:Hbc; try done.
    + rewrite <- (compare_arg_eq_r arg a b c Hbc), Hab. done.
    + rewrite (compare_arg_lt_trans arg a b c Hab Hbc). done.
Qed.

#[global] Instance order_le_total args : Total (order_le args).
Proof.
  intros a b. unfold order_le. rewrite (compare_by_antisym args a b).
  destruct (compare_by args a b); cbn; auto.
Qed.

#[global] Instance order_le_trans args : Transitive (order_le args).
Proof.
  intros a b c. unfold order_le.
  destruct (compare_by args a b) eqn:Hab; [| |done].
  - by rewrite (compare_by_eq_l args a b c Hab).
  - destruct (compare_by args b c) eqn:Hbc; [| |done]; intros _ _.
    + by rewrite <- (compare_by_eq_r args a b c Hbc), Hab.
    + by rewrite (compare_by_lt_trans args a b c Hab Hbc).
Qed.

Lemma order_by_sorted args queryset :
  StronglySorted (order_le args) (order_by args queryset).
Proof. apply StronglySorted_merge_sort; apply _. Qed.

Lemma order_by_permutation args queryset : order_by args queryset ≡ₚ queryset.
Proof. apply merge_sort_Permutation. Qed.

Lemma dict_get_ORDER_ARGS ordering arg :
  dict_get ORDER_ARGS ordering = Some arg →
  (ordering = "last-updated" ∧ arg = Desc o_date_updated)
  ∨ (ordering = "most-downloaded" ∧ arg = Desc o_download_count)
  ∨ (ordering = "newest" ∧ arg = Desc o_date_created)
  ∨ (ordering = "top-rated" ∧ arg = Desc o_rating_count).
Proof.
  unfold ORDER_ARGS. cbn [dict_get].
  repeat (match goal with
          | |- context [String.eqb ?k ordering] =>
              destruct (String.eqb_spec k ordering) as [<-|?]
          end; [intros [= <-]; tauto|]).
  done.
Qed.

Lemma order_le_listing_order ordering arg a b :
  dict_get ORDER_ARGS ordering = Some arg →
  order_le (order_args arg) a b ↔ listing_order ordering a b.
Proof.
  intros Harg.
  unfold order_le, order_args, listing_order.
  apply dict_get_ORDER_ARGS in Harg as [[-> ->]|[[-> ->]|[[-> ->]|[-> ->]]]];
    cbn [compare_by compare_arg order_key compare_null selected_key String.eqb
         Ascii.eqb Bool.eqb];
    destruct (is_pinned a), (is_pinned b), (is_deprecated a), (is_deprecated b);
    cbn [Z.b2z Z.compare Pos.compare Pos.compare_cont];
    try (split; [intros _; tauto || (intros; exfalso; congruence) | intros; discriminate || intuition congruence]; fail);
    try destruct (download_count a) as [da|]; try destruct (download_count b) as [db|];
    cbn [compare_null key_gt];
    repeat (match goal with
            | |- context [Z.compare ?x ?y] => destruct (Z.compare_spec x y)
            end);
    split; intros Hx; try done; try discriminate;
    try (intuition (first [lia | congruence | simplify_eq; lia]); fail).
Qed.

Lemma StronglySorted_mono {A} (R1 R2 : relation A) l :
  (∀ a b, R1 a b → R2 a b) → StronglySorted R1 l → StronglySorted R2 l.
Proof.
  intros Himp. induction 1 as [|x l Hl IH Hx]; constructor; [done|].
  eapply Forall_impl; [exact Hx|]. auto.
Qed.

Lemma StronglySorted_take_drop {A} (R : relation A) l i j :
  StronglySorted R l → StronglySorted R (take i (drop j l)).
Proof.
  intros Hl. rewrite <- (take_drop j l) in Hl. apply StronglySorted_app_1_r in Hl.
  rewrite <- (take_drop i (drop j l)) in Hl. by apply StronglySorted_app_1_l in Hl.
Qed.

(** ** The paginator *)

Lemma get_page_Some queryset n page :
  PackageListPaginator.get_page queryset n = Some page →
  1 ≤ n ≤ PackageListPaginator.num_pages (Z.of_nat (length queryset)) ∧
  PackageListPaginator.number page = n ∧
  PackageListPaginator.paginator_count page = Z.of_nat (length queryset) ∧
  (∃ i j, PackageListPaginator.object_list page = take i (drop j queryset)) ∧
  (length (PackageListPaginator.object_list page) ≤ 20)%nat.
Proof.
  unfold PackageListPaginator.get_page, PackageListPaginator.validate_number.
  repeat case_bool_decide; cbn; try done; intros [= <-]; cbn;
    (split_and!; [lia|lia|done|done|eauto|]);
    rewrite length_take; unfold PackageListPaginator.page_size in *;
    case_bool_decide; lia.
Qed.

Lemma slice_empty count n :
  0 ≤ count → 1 ≤ n ≤ PackageListPaginator.num_pages count →
  PackageListPaginator.slice_bottom n = PackageListPaginator.slice_top count n ↔
  count = 0.
Proof.
  unfold PackageListPaginator.slice_top, PackageListPaginator.slice_bottom,
    PackageListPaginator.num_pages, PackageListPaginator.page_size.
  intros Hc Hn. case_bool_decide; Z.div_mod_to_equations; lia.
Qed.

Lemma prefetch_queries_no_package rows :
  Forall (λ x, is_package_query x = false) (prefetch_queries rows).
Proof.
  unfold prefetch_queries. destruct rows; [constructor|].
  case_match; repeat constructor.
Qed.

(** ** The view *)

Lemma bind_inr {A B} (m : View A) (k : A → View B) log b log' :
  bind m k log = (inr b, log') →
  ∃ a log1, m log = (inr a, log1) ∧ k a log1 = (inr b, log').
Proof.
  unfold bind. destruct (m log) as [[e|a] log1]; [done|]. eauto.
Qed.

Lemma bind_run {A B} (m : View A) (k : A → View B) log a log1 :
  m log = (inr a, log1) → bind m k log = k a log1.
Proof. unfold bind. by intros ->. Qed.

Lemma bind_inl {A B} (m : View A) (k : A → View B) log e log' :
  bind m k log = (inl e, log') →
  m log = (inl e, log') ∨
  ∃ a log1, m log = (inr a, log1) ∧ k a log1 = (inl e, log').
Proof.
  unfold bind. destruct (m log) as [[e'|a] log1]; [|by eauto].
  intros [= -> ->]. by left.
Qed.

Lemma for_each_inl {A B} (f : A → View B) rows log e log' :
  for_each f rows log = (inl e, log') →
  ∃ x l l', x ∈ rows ∧ f x l = (inl e, l').
Proof.
  revert log. induction rows as [|x rows IH]; intros log; cbn [for_each]; [done|].
  intros Hrun. apply bind_inl in Hrun as [Hx|(y & l1 & Hx & Hrun)].
  - exists x, log, log'. split; [apply list_elem_of_here|done].
  - apply bind_inl in Hrun as [Hr|(ys & l2 & Hr & Hrun)]; [|done].
    destruct (IH _ Hr) as (x' & l & l'' & Hin & Hf).
    exists x', l, l''. split; [by apply list_elem_of_further|done].
Qed.

Lemma run_value {A} (m : View A) l1 l2 a l1' :
  (m l1).1 = (m l2).1 → m l1 = (inr a, l1') → ∃ l2', m l2 = (inr a, l2').
Proof.
  intros Heq Hrun. rewrite Hrun in Heq. destruct (m l2) as [r l2'].
  cbn in Heq. subst r. eauto.
Qed.

Lemma for_each_value {A B} (f : A → View B) rows :
  (∀ x l1 l2, (f x l1).1 = (f x l2).1) →
  ∀ l1 l2, (for_each f rows l1).1 = (for_each f rows l2).1.
Proof.
  intros Hf. induction rows as [|x rows IH]; intros l1 l2; [done|].
  cbn [for_each]. unfold bind at 1 3.
  pose proof (Hf x l1 l2) as Hx.
  destruct (f x l1) as [[e1|y1] l1'], (f x l2) as [[e2|y2] l2'];
    cbn in Hx; simplify_eq; [done|].
  unfold bind, ret. specialize (IH l1' l2').
  destruct (for_each f rows l1') as [[e1|ys1] l1''],
           (for_each f rows l2') as [[e2|ys2] l2''];
    cbn in IH; simplify_eq; done.
Qed.

Section ViewProperties.
Context `{RestFramework} `{UrlConf}.
Variable db : Database.
Variable self : ViewClass.
Variable kwargs : list (string * string).
Variable query_params : QueryDict.

Import PackageListPaginator.

Lemma get_queryset_inr log qs log' :
  get_queryset db self kwargs log = (inr qs, log') →
  ∃ community_id community,
    dict_get kwargs "community_id" = Some community_id ∧
    communities db !! community_id = Some community ∧
    ∀ p, p ∈ qs → p ∈ get_community_package_queryset db community.
Proof.
  unfold get_queryset, base_get_queryset, _get_community, get_namespace, kwarg,
    bind, execute, ret, raise.
  intros Hrun. repeat case_match; simplify_eq; eexists _, _; split_and!; eauto.
  intros p. rewrite list_elem_of_filter. tauto.
Qed.

Lemma filter_queryset_inr qs0 log qs log' :
  filter_queryset db self kwargs query_params qs0 log = (inr qs, log') →
  ∃ community_id community params arg base log0 log1,
    dict_get kwargs "community_id" = Some community_id ∧
    communities db !! community_id = Some community ∧
    get_queryset db self kwargs log0 = (inr base, log1) ∧
    is_valid query_params = Some params ∧
    dict_get ORDER_ARGS (ordering params) = Some arg ∧
    qs = order_by (order_args arg)
           (apply_filters db (require_package_listing_approval community)
                          (sort_lists params) base).
Proof.
  unfold filter_queryset. intros Hrun.
  apply bind_inr in Hrun as (community & l1 & Hc & Hrun).
  apply bind_inr in Hrun as (base & l2 & Hb & Hrun).
  apply bind_inr in Hrun as (params & l3 & Hp & Hrun).
  apply bind_inr in Hrun as (qs1 & l4 & Hs & Hrun).
  unfold _get_validated_query_params, ret, raise in Hp.
  destruct (is_valid query_params) as [params0|] eqn:Hv; simplify_eq.
  cbn [ordering sort_lists] in Hrun.
  destruct (dict_get ORDER_ARGS (ordering params0)) as [arg|] eqn:Harg;
    unfold ret, raise in Hrun; simplify_eq.
  unfold _get_community, kwarg, bind, execute, ret, raise in Hc.
  destruct (dict_get kwargs "community_id") as [cid|] eqn:Hk; simplify_eq.
  destruct (communities db !! cid) as [c|] eqn:Hl; simplify_eq.
  do 7 eexists. split_and!; try first [eassumption | reflexivity].
  unfold apply_filters. f_equal. f_equal.
  unfold filter_by_section_q, bind, execute, ret in Hs. cbn [section sort_lists] in *.
  destruct (section params0) as [u|]; [destruct (sections db !! u)|];
    simplify_eq; reflexivity.
Qed.


Lemma integer_list_field_invalid vs v :
  v ∈ vs → integer_to_internal_value v = None →
  integer_list_field (Some vs) = None.
Proof.
  intros Hin Hv. unfold integer_list_field.
  destruct (mapM integer_to_internal_value vs) as [ns|] eqn:Hm; [|done].
  assert (Hs : is_Some (mapM integer_to_internal_value vs)) by eauto.
  apply mapM_is_Some in Hs. rewrite Forall_forall in Hs.
  destruct (Hs v Hin) as [n Hn]. cbn in Hn. congruence.
Qed.

Lemma malformed_invalid data : malformed data → is_valid data = None.
Proof.
  unfold malformed, is_valid.
  intros [(v & Hv & Hn)|[(vs & v & Hvs & Hin & Hn)|[(vs & v & Hvs & Hin & Hn)|
         [(v & Hv & Hn)|[(v & Hv & Hn)|[(v & Hv & Hn)|[(v & Hv & Hn)|(v & Hv & Hn)]]]]]]].
  - rewrite Hv. cbn [with_default]. unfold choice_to_internal_value at 1.
    rewrite bool_decide_eq_false_2 by exact Hn.
    repeat (match goal with |- context [mbind _ ?o] => destruct o; cbn end); done.
  - rewrite Hvs, (integer_list_field_invalid vs v) by done.
    repeat (match goal with |- context [mbind _ ?o] => destruct o; cbn end); done.
  - rewrite Hvs, (integer_list_field_invalid vs v) by done.
    repeat (match goal with |- context [mbind _ ?o] => destruct o; cbn end); done.
  - rewrite Hv. cbn [with_default]. unfold page_to_internal_value at 1.
    destruct (integer_to_internal_value v) as [n|] eqn:Hi; cbn.
    + rewrite bool_decide_eq_false_2 by (specialize (Hn n eq_refl); lia).
      repeat (match goal with |- context [mbind _ ?o] => destruct o; cbn end); done.
    + repeat (match goal with |- context [mbind _ ?o] => destruct o; cbn end); done.
  - rewrite Hv. cbn [with_default]. rewrite Hn. done.
  - rewrite Hv. cbn [with_default]. rewrite Hn.
    repeat (match goal with |- context [mbind _ ?o] => destruct o; cbn end); done.
  - rewrite Hv. cbn [optional]. rewrite Hn.
    repeat (match goal with |- context [mbind _ ?o] => destruct o; cbn end); done.
  - rewrite Hv. cbn [optional]. rewrite Hn.
    repeat (match goal with |- context [mbind _ ?o] => destruct o; cbn end); done.
Qed.


Lemma list_invalid log :
  routed db self kwargs → is_valid query_params = None →
  ∃ e new,
    list_ db self kwargs query_params log = (inl e, (log ++ new)%list) ∧
    (e = ValidationError ∨ e = Http404) ∧
    Forall (λ x, is_package_query x = false) new.
Proof.
  intros [[cid Hcid] Hns] Hv.
  unfold list_, filter_queryset, get_queryset, base_get_queryset,
    _get_validated_query_params, _get_community, get_namespace, kwarg,
    bind, execute, ret, raise.
  rewrite Hcid, Hv.
  destruct self.
  - destruct (communities db !! cid);
      eexists _, _; rewrite <- ?(assoc_L (++)); (split; [reflexivity|]);
      (split; [auto|]); repeat constructor.
  - destruct Hns as (ns & Hk & Hlen); [done|]. rewrite Hk.
    destruct (filter _ (namespaces db)) as [|n [|n' l]]; cbn in Hlen; [| |lia];
      destruct (communities db !! cid);
      eexists _, _; rewrite <- ?(assoc_L (++)); (split; [reflexivity|]);
      (split; [auto|]); repeat constructor.
Qed.

(** C9: a request whose ordering is not one of the four keys, or that is
    malformed in another way (a category id that is no integer, a page
    below 1, ...), is rejected by the serializer; the view then ends with
    a client error (400, or 404 when the community or namespace of the url
    does not exist), returns no results, and has executed no query on
    packages. *)
Theorem invalid_request_rejected_before_package_query log :
  routed db self kwargs →
  malformed query_params ∨ is_valid query_params = None →
  is_valid query_params = None ∧
  ∃ e new,
    list_ db self kwargs query_params log = (inl e, (log ++ new)%list) ∧
    (e = ValidationError ∨ e = Http404) ∧
    400 ≤ status_code e < 500 ∧
    Forall (λ x, is_package_query x = false) new.
Proof.
  intros Hr Hbad.
  assert (Hv : is_valid query_params = None).
  { destruct Hbad as [Hm|Hv]; [by apply malformed_invalid|done]. }
  split; [done|].
  destruct (list_invalid log Hr Hv) as (e & new & Hrun & He & Hnew).
  exists e, new. split_and!; auto; destruct He; subst e; cbn; lia.
Qed.


Lemma paginate_queryset_inr queryset log page log' :
  paginate_queryset query_params queryset log = (inr page, log') →
  ∃ n, paginator_page_number query_params = Some n ∧
       get_page queryset n = Some page.
Proof.
  unfold paginate_queryset, bind, execute, execute_all, ret, raise. intros Hrun.
  repeat case_match; simplify_eq; eauto.
Qed.

Lemma paginate_queryset_Some queryset n page log :
  paginator_page_number query_params = Some n →
  get_page queryset n = Some page →
  ∃ log', paginate_queryset query_params queryset log = (inr page, log').
Proof.
  intros Hn Hpage.
  unfold paginate_queryset, bind, execute, execute_all, ret, raise.
  rewrite Hn. case_bool_decide as Hlt.
  { unfold get_page, validate_number in Hpage.
    rewrite bool_decide_eq_true_2 in Hpage by done. done. }
  rewrite Hpage. case_bool_decide; eauto.
Qed.

Lemma package_dict_value community_id p l1 l2 :
  (package_dict db community_id p l1).1 = (package_dict db community_id p l2).1.
Proof.
  unfold package_dict, bind, execute, ret, raise.
  repeat case_match; reflexivity.
Qed.

Lemma get_serializer_value page l1 l2 :
  (get_serializer db kwargs page l1).1 = (get_serializer db kwargs page l2).1.
Proof.
  unfold get_serializer, _get_packages_dicts, kwarg, bind, ret, raise.
  destruct (dict_get kwargs "community_id") as [cid|]; [|done].
  pose proof (for_each_value (package_dict db cid) (object_list page)
                (package_dict_value cid) l1 l2) as Hv.
  destruct (for_each _ _ l1) as [[?|?] ?], (for_each _ _ l2) as [[?|?] ?];
    cbn in Hv; simplify_eq; done.
Qed.

Lemma list_inr log resp log' :
  list_ db self kwargs query_params log = (inr resp, log') →
  ∃ community params arg base n page data,
    is_valid query_params = Some params ∧
    dict_get ORDER_ARGS (ordering params) = Some arg ∧
    (∃ community_id, dict_get kwargs "community_id" = Some community_id ∧
                     communities db !! community_id = Some community) ∧
    (∃ l l', get_queryset db self kwargs l = (inr base, l')) ∧
    (∀ p, p ∈ base → p ∈ get_community_package_queryset db community) ∧
    paginator_page_number query_params = Some n ∧
    get_page (order_by (order_args arg)
                (apply_filters db (require_package_listing_approval community)
                               (sort_lists params) base)) n = Some page ∧
    resp = {| count := paginator_count page;
              previous := previous_link self kwargs (sort_lists params) page;
              next := next_link self kwargs (sort_lists params) page;
              results := object_list page;
              package_list := data |}.
Proof.
  unfold list_. intros Hrun.
  apply bind_inr in Hrun as (qs0 & l1 & _ & Hrun).
  apply bind_inr in Hrun as (qs & l2 & Hf & Hrun).
  apply bind_inr in Hrun as (page & l3 & Hp & Hrun).
  apply bind_inr in Hrun as (data & l3' & _ & Hrun).
  apply bind_inr in Hrun as (sib & l4 & Hs & Hrun).
  apply filter_queryset_inr in Hf
    as (cid & community & params & arg & base & l5 & l6 & Hk & Hc & Hb & Hv & Harg & ->).
  pose proof Hb as Hb'.
  apply get_queryset_inr in Hb as (cid' & community' & Hk' & Hc' & Hbase).
  rewrite Hk in Hk'. injection Hk' as <-. rewrite Hc in Hc'. injection Hc' as <-.
  apply paginate_queryset_inr in Hp as (n & Hn & Hpage).
  unfold _get_sibling_pages, _get_validated_query_params, bind, ret in Hs.
  rewrite Hv in Hs. unfold ret in Hrun. simplify_eq.
  exists community, params, arg, base, n, page, data. split_and!; eauto.
Qed.


(** C3: the packages of a returned page stand in the order of the
    listing: pinned first, deprecated last, then the selected key
    descending (last-updated, most-downloaded, newest or top-rated), then
    last-updated descending, then the identifier descending; the
    selected ordering is one of the four keys. *)
Theorem list_results_sorted log resp log' :
  list_ db self kwargs query_params log = (inr resp, log') →
  ∃ params,
    is_valid query_params = Some params ∧
    ordering params ∈ ["last-updated"; "most-downloaded"; "newest"; "top-rated"] ∧
    StronglySorted (listing_order (ordering params)) (results resp).
Proof.
  intros Hrun.
  apply list_inr in Hrun
    as (community & params & arg & base & n & page & data & Hv & Harg & _ & _ & _ & _ & Hpage & ->).
  exists params. split; [done|]. split.
  { apply dict_get_ORDER_ARGS in Harg as [[-> _]|[[-> _]|[[-> _]|[-> _]]]];
      set_solver. }
  apply get_page_Some in Hpage as (_ & _ & _ & (i & j & Hobj) & _).
  cbn [results]. rewrite Hobj. apply StronglySorted_take_drop.
  eapply StronglySorted_mono; [|apply order_by_sorted].
  intros a b. by apply order_le_listing_order.
Qed.


Lemma is_valid_flags params :
  is_valid query_params = Some params →
  with_default boolean_to_internal_value false (get_value query_params "deprecated")
  = Some (deprecated params) ∧
  with_default boolean_to_internal_value false (get_value query_params "nsfw")
  = Some (nsfw params).
Proof.
  unfold is_valid. intros Hv.
  repeat (match type of Hv with
          | context [mbind _ ?o] => destruct o eqn:?; cbn in Hv; [|discriminate]
          end).
  injection Hv as <-. cbn. done.
Qed.

Lemma apply_filters_flags require_approval params base p :
  p ∈ apply_filters db require_approval params base →
  p ∈ filter_nsfw (nsfw params) (filter_deprecated (deprecated params) base).
Proof.
  unfold apply_filters. intros Hp.
  apply filter_by_query_subset, filter_by_section_subset,
    filter_not_in_categories_subset, filter_in_categories_subset in Hp.
  rewrite filter_nsfw_elem, filter_deprecated_elem in Hp.
  rewrite filter_nsfw_elem, filter_deprecated_elem.
  destruct Hp as [[Hp ?] ?]. split_and!; auto.
  unfold filter_by_review_status in Hp. apply list_elem_of_filter in Hp. tauto.
Qed.


End ViewProperties.

(** ** Pagination and sibling links *)

Lemma sort_sorted l : StronglySorted Z.le (sort l).
Proof. apply StronglySorted_merge_sort; apply _. Qed.

Lemma sort_permutation l1 l2 : l1 ≡ₚ l2 → sort l1 = sort l2.
Proof.
  intros Hp. apply (StronglySorted_unique Z.le); auto using sort_sorted.
  unfold sort. by rewrite !merge_sort_Permutation.
Qed.

Lemma sort_lists_same_up_to_order p1 p2 :
  same_up_to_order p1 p2 → sort_lists p1 = sort_lists p2.
Proof.
  intros (Hd & Hex & Hin & Hn & Ho & Hp & Hq & Hs). unfold sort_lists.
  rewrite Hd, Hn, Ho, Hp, Hq, Hs.
  rewrite (sort_permutation _ _ Hex), (sort_permutation _ _ Hin). done.
Qed.

Lemma query_pairs_app l1 l2 :
  Urllib.query_pairs (l1 ++ l2) = (Urllib.query_pairs l1 ++ Urllib.query_pairs l2)%list.
Proof. unfold Urllib.query_pairs. by rewrite fmap_app, concat_app. Qed.

Lemma page_pair_in_link params n :
  Urllib.quote_plus "page" +:+ "=" +:+ Urllib.quote_plus (Urllib.str_int n)
  ∈ link_pairs params n.
Proof.
  unfold link_pairs, params_items. rewrite query_pairs_app.
  apply elem_of_app. left. cbn [page set_page].
  unfold Urllib.query_pairs. cbn [fmap list_fmap concat fst snd Urllib.item_pairs].
  rewrite !elem_of_app. do 5 right. left. apply list_elem_of_here.
Qed.

Section TwoRequests.
Context `{RestFramework} `{UrlConf}.
Variable db : Database.
Variable self : ViewClass.
Variable kwargs : list (string * string).

Import PackageListPaginator.

Lemma get_queryset_det l1 b1 l1' l2 b2 l2' :
  get_queryset db self kwargs l1 = (inr b1, l1') →
  get_queryset db self kwargs l2 = (inr b2, l2') →
  b1 = b2.
Proof.
  unfold get_queryset, base_get_queryset, _get_community, get_namespace, kwarg,
    bind, execute, ret, raise.
  intros H1 H2. repeat case_match; simplify_eq; try done.
  match goal with
  | Ha : _ = [?a], Hb : _ = [?b] |- _ =>
      assert (a = b) as -> by (pose proof (eq_trans (eq_sym Ha) Hb); congruence)
  end.
  done.
Qed.

(** C5: a page holds at most 20 results; the previous and next links are
    made from the validated parameters with their category lists sorted,
    so two requests that differ only in the order of the category ids get
    the same links; on page 2 of 3 both links exist and carry [page=1] and
    [page=3]. *)
Theorem list_pagination_links query_params log resp log' :
  list_ db self kwargs query_params log = (inr resp, log') →
  (length (results resp) ≤ 20)%nat ∧
  ∃ params n,
    is_valid query_params = Some params ∧
    paginator_page_number query_params = Some n ∧
    1 ≤ n ≤ num_pages (count resp) ∧
    StronglySorted Z.le (excluded_categories (sort_lists params)) ∧
    StronglySorted Z.le (included_categories (sort_lists params)) ∧
    previous resp
    = (if bool_decide (1 < n)
       then Some (view_url self kwargs +:+ "?"
                  +:+ Urllib.join "&" (link_pairs (sort_lists params) (n - 1)))
       else None) ∧
    next resp
    = (if bool_decide (n < num_pages (count resp))
       then Some (view_url self kwargs +:+ "?"
                  +:+ Urllib.join "&" (link_pairs (sort_lists params) (n + 1)))
       else None) ∧
    (n = 2 → num_pages (count resp) = 3 →
     is_Some (previous resp) ∧ is_Some (next resp) ∧
     "page=1" ∈ link_pairs (sort_lists params) (n - 1) ∧
     "page=3" ∈ link_pairs (sort_lists params) (n + 1)) ∧
    (∀ query_params2 params2 log2 resp2 log2',
       is_valid query_params2 = Some params2 →
       same_up_to_order params params2 →
       paginator_page_number query_params2 = Some n →
       list_ db self kwargs query_params2 log2 = (inr resp2, log2') →
       previous resp2 = previous resp ∧ next resp2 = next resp).
Proof.
  intros Hrun.
  apply list_inr in Hrun
    as (community & params & arg & base & n & page & data & Hv & Harg & (cid & Hk & Hc)
        & (l & l' & Hb) & _ & Hn & Hpage & ->).
  pose proof Hpage as Hpage'.
  apply get_page_Some in Hpage' as (Hrange & Hnum & Hcount & _ & Hlen).
  cbn [results count previous next]. split; [done|].
  exists params, n. rewrite Hcount.
  assert (Hprev : previous_link self kwargs (sort_lists params) page
                  = if bool_decide (1 < n)
                    then Some (view_url self kwargs +:+ "?"
                               +:+ Urllib.join "&" (link_pairs (sort_lists params) (n - 1)))
                    else None).
  { unfold previous_link, has_previous. rewrite Hnum. reflexivity. }
  assert (Hnext : next_link self kwargs (sort_lists params) page
                  = if bool_decide (n < num_pages (Z.of_nat (length
                         (order_by (order_args arg)
                            (apply_filters db (require_package_listing_approval community)
                               (sort_lists params) base)))))
                    then Some (view_url self kwargs +:+ "?"
                               +:+ Urllib.join "&" (link_pairs (sort_lists params) (n + 1)))
                    else None).
  { unfold next_link, has_next. rewrite Hnum, Hcount. reflexivity. }
  split_and!; auto; try lia; try apply sort_sorted.
  - intros -> H3. rewrite Hprev, Hnext, H3. cbn. split_and!; eauto.
    + apply (page_pair_in_link (sort_lists params) 1).
    + apply (page_pair_in_link (sort_lists params) 3).
  - intros qd2 params2 log2 resp2 log2' Hv2 Hsame Hn2 Hrun2.
    apply list_inr in Hrun2
      as (community2 & params2' & arg2 & base2 & n2 & page2 & data2 & Hv2' & Harg2
          & (cid2 & Hk2 & Hc2) & (l2 & l2' & Hb2) & _ & Hn2' & Hpage2 & ->).
    rewrite Hv2 in Hv2'. injection Hv2' as <-.
    rewrite Hn2 in Hn2'. injection Hn2' as <-.
    rewrite Hk in Hk2. injection Hk2 as <-. rewrite Hc in Hc2. injection Hc2 as <-.
    pose proof (get_queryset_det _ _ _ _ _ _ Hb Hb2) as <-.
    pose proof (sort_lists_same_up_to_order _ _ Hsame) as Hsort.
    assert (ordering params2 = ordering params) as Ho by (symmetry; apply Hsame).
    rewrite Ho, Harg in Harg2. injection Harg2 as <-.
    rewrite <- Hsort, Hpage in Hpage2. injection Hpage2 as <-.
    cbn [previous next]. by rewrite Hsort.
Qed.

Lemma filter_by_section_missing u queryset :
  sections db !! u = None → filter_by_section db (Some u) queryset = queryset.
Proof. intros Hu. unfold filter_by_section. rewrite Hu. reflexivity. Qed.

Lemma filter_queryset_missing_section u query_params1 query_params2 params
    qs0 log qs log2 :
  sections db !! u = None →
  is_valid query_params1 = Some params →
  section params = Some u →
  is_valid query_params2 = Some (without_section params) →
  filter_queryset db self kwargs query_params2 qs0 log = (inr qs, log2) →
  ∃ log1, filter_queryset db self kwargs query_params1 qs0 log = (inr qs, log1).
Proof.
  intros Hu Hv1 Hs Hv2.
  unfold filter_queryset, get_queryset, base_get_queryset,
    _get_validated_query_params, filter_by_section_q, _get_community,
    get_namespace, kwarg, bind, execute, ret, raise.
  rewrite Hv1, Hv2.
  cbn [section sort_lists without_section deprecated nsfw included_categories
       excluded_categories ordering q]. rewrite Hs, Hu.
  intros Hrun.
  destruct self;
    (destruct (dict_get kwargs "community_id") as [cid|];
     [|cbn in Hrun; repeat case_match; simplify_eq]);
    cbn beta iota in Hrun |- *.
  - destruct (communities db !! cid) as [c|]; [|done]. cbn beta iota in Hrun |- *.
    rewrite (filter_by_section_missing u) by done.
    destruct (dict_get ORDER_ARGS (ordering params)); [|done].
    simplify_eq. eauto.
  - destruct (communities db !! cid) as [c|]; [|done]. cbn beta iota in Hrun |- *.
    destruct (dict_get kwargs "namespace_id") as [ns|]; [|done].
    cbn beta iota in Hrun |- *.
    destruct (filter _ (namespaces db)) as [|n0 [|n1 l]]; [done| |done].
    cbn beta iota in Hrun |- *.
    rewrite (filter_by_section_missing u) by done.
    destruct (dict_get ORDER_ARGS (ordering params)); [|done].
    simplify_eq. eauto.
Qed.

(** C8: when the section a request names does not exist, the section
    filter leaves the queryset as it is, and the view answers as it does
    for the same request without the section parameter: whenever that
    request succeeds, this one succeeds with the same count and the same
    results. *)
Theorem missing_section_is_no_restriction u query_params1 query_params2 params log :
  sections db !! u = None →
  is_valid query_params1 = Some params →
  section params = Some u →
  is_valid query_params2 = Some (without_section params) →
  paginator_page_number query_params1 = paginator_page_number query_params2 →
  (∀ queryset, filter_by_section db (Some u) queryset
               = filter_by_section db None queryset) ∧
  ∀ resp2 log2,
    list_ db self kwargs query_params2 log = (inr resp2, log2) →
    ∃ resp1 log1,
      list_ db self kwargs query_params1 log = (inr resp1, log1) ∧
      count resp1 = count resp2 ∧
      results resp1 = results resp2.
Proof.
  intros Hu Hv1 Hs Hv2 Hpn. split.
  { intros queryset. by apply filter_by_section_missing. }
  intros resp2 log2 Hrun.
  unfold list_ in Hrun |- *.
  apply bind_inr in Hrun as (qs0 & l1 & Hq & Hrun).
  apply bind_inr in Hrun as (qs & l2 & Hf & Hrun).
  apply bind_inr in Hrun as (page & l3 & Hp & Hrun).
  apply bind_inr in Hrun as (data & l4 & Hd & Hrun).
  apply bind_inr in Hrun as (sib & l5 & Hsib & Hrun).
  unfold ret in Hrun. injection Hrun as <- <-.
  destruct (filter_queryset_missing_section u query_params1 query_params2 params
              qs0 l1 qs l2 Hu Hv1 Hs Hv2 Hf) as (l2' & Hf1).
  apply paginate_queryset_inr in Hp as (n & Hn & Hpage).
  rewrite <- Hpn in Hn.
  destruct (paginate_queryset_Some query_params1 qs n page l2' Hn Hpage)
    as (l3' & Hp1).
  destruct (run_value _ l3 l3' _ _ (get_serializer_value db kwargs page l3 l3') Hd)
    as (l4' & Hd1).
  rewrite (bind_run _ _ _ _ _ Hq), (bind_run _ _ _ _ _ Hf1),
    (bind_run _ _ _ _ _ Hp1), (bind_run _ _ _ _ _ Hd1).
  unfold _get_sibling_pages, _get_validated_query_params, bind, ret.
  rewrite Hv1. eexists _, _. split_and!; reflexivity.
Qed.

End TwoRequests.

(** ** The v1 package cache *)

Lemma StronglySorted_filter {A} (R : relation A) (P : A → Prop)
    `{∀ x, Decision (P x)} l :
  StronglySorted R l → StronglySorted R (filter P l).
Proof.
  induction 1 as [|x l Hl IH Hx]; [constructor|].
  rewrite filter_cons. case_decide; [|done]. constructor; [done|].
  rewrite Forall_forall in Hx |- *. intros y Hy.
  apply list_elem_of_filter in Hy. naive_solver.
Qed.

Lemma StronglySorted_fmap_inv {A B} (f : A → B) (R : relation B) l :
  StronglySorted R (f <$> l) → StronglySorted (λ a b, R (f a) (f b)) l.
Proof.
  induction l as [|x l IH]; csimpl; [constructor|].
  intros Hs. apply StronglySorted_inv in Hs as [Hl Hx].
  constructor; [auto|]. by rewrite Forall_fmap in Hx.
Qed.

Section CacheProperties.
Import APIV1PackageCache.

Lemma run_snoc rs r :
  run (rs ++ [r])
  = (regenerate (at_time r) (for_community r) (with_payload r) (run rs)).2.
Proof. unfold run. by rewrite foldl_snoc. Qed.

Lemma deactivate_last_modified c e :
  last_modified (deactivate c e) = last_modified e.
Proof. unfold deactivate. by case_bool_decide. Qed.

Lemma deactivate_cache_pk c e : cache_pk (deactivate c e) = cache_pk e.
Proof. unfold deactivate. by case_bool_decide. Qed.

(** Entries keep the times they were made at, in the order of the
    regenerations. *)
Lemma run_times rs : last_modified <$> run rs = at_time <$> rs.
Proof.
  induction rs as [|r rs IH] using rev_ind; [done|].
  rewrite run_snoc. cbn [regenerate snd]. rewrite !fmap_app, <- IH. cbn.
  f_equal. rewrite <- list_fmap_compose. apply list_fmap_ext.
  intros i e _. cbn. apply deactivate_last_modified.
Qed.

(** Identities are the positions of the entries in the table. *)
Lemma run_cache_pk rs e :
  e ∈ run rs → 1 ≤ cache_pk e ≤ Z.of_nat (length (run rs)).
Proof.
  revert e. induction rs as [|r rs IH] using rev_ind; intros e.
  - cbn. by intros ?%elem_of_nil.
  - rewrite run_snoc. cbn [regenerate snd]. rewrite length_app, length_fmap.
    intros [He|He]%elem_of_app.
    + apply list_elem_of_fmap in He as (e' & -> & He').
      rewrite deactivate_cache_pk. specialize (IH e' He'). cbn. lia.
    + apply list_elem_of_singleton in He as ->. cbn. lia.
Qed.

Lemma get_latest_elem_of c store cache :
  get_latest c store = Some cache →
  cache ∈ store ∧ community_ref cache = c ∧ cache_is_active cache = true.
Proof.
  unfold get_latest. intros Hl. apply last_Some_elem_of in Hl.
  apply list_elem_of_filter in Hl. tauto.
Qed.

Lemma get_latest_regenerate now c payload store :
  get_latest c (regenerate now c payload store).2
  = Some (regenerate now c payload store).1.
Proof.
  unfold get_latest. cbn [regenerate fst snd].
  rewrite filter_app, filter_cons_True, filter_nil by done.
  apply last_snoc.
Qed.

Lemma get_latest_regenerate_other now c c' payload store :
  c ≠ c' →
  get_latest c (regenerate now c' payload store).2 = get_latest c store.
Proof.
  intros Hne. unfold get_latest. cbn [regenerate fst snd].
  rewrite filter_app, filter_cons_False, filter_nil, app_nil_r by (cbn; naive_solver).
  f_equal. induction store as [|e store IH]; [done|].
  csimpl. rewrite !filter_cons, IH.
  unfold deactivate. case_bool_decide as Hc.
  - rewrite decide_False by (cbn; intros [? _]; congruence).
    rewrite decide_False by (intros [? _]; congruence). done.
  - done.
Qed.

Lemma get_latest_never_regenerated rs c :
  Forall (λ r, for_community r ≠ c) rs → get_latest c (run rs) = None.
Proof.
  induction rs as [|r rs IH] using rev_ind; [done|].
  intros [Hrs Hr]%Forall_app. rewrite Forall_singleton in Hr.
  rewrite run_snoc. rewrite get_latest_regenerate_other; [auto|].
  intros Heq. by apply Hr.
Qed.

(** C2: for a community that was never regenerated [get_latest] is
    [None] and the endpoint answers 503. With a cache entry, a request whose
    If-Modified-Since time, in whole seconds, is at least the whole
    seconds of the entry's [last_modified] gets 304 and no body; any
    other request gets 200 with the stored payload and the entry's
    content type, content encoding and HTTP-dated [last_modified] as
    headers. *)
Theorem cached_endpoint_conditional_semantics :
  (∀ rs c,
     Forall (λ r, for_community r ≠ c) rs →
     get_latest c (run rs) = None ∧
     ∀ ims, status (package_list (run rs) c ims) = 503) ∧
  (∀ store c cache,
     get_latest c store = Some cache →
     (∀ t, seconds (last_modified cache) ≤ seconds t →
           package_list store c (Some t)
           = {| status := 304; body := None; headers := [] |}) ∧
     (∀ ims,
        (ims = None ∨ ∃ t, ims = Some t ∧ seconds t < seconds (last_modified cache)) →
        package_list store c ims
        = {| status := 200;
             body := Some (content cache);
             headers :=
               [ ("Content-Type", content_type cache);
                 ("Content-Encoding", content_encoding cache);
                 ("Last-Modified", http_date (seconds (last_modified cache))) ] |})).
Proof.
  split.
  - intros rs c Hrs. pose proof (get_latest_never_regenerated rs c Hrs) as Hnone.
    split; [done|]. intros ims. unfold package_list. by rewrite Hnone.
  - intros store c cache Hl. unfold package_list. rewrite Hl. split.
    + intros t Ht. by rewrite bool_decide_eq_true_2.
    + intros ims [->|(t & -> & Ht)]; [done|].
      by rewrite bool_decide_eq_false_2 by lia.
Qed.

(** C4: when the clock does not go back between regenerations, the
    [last_modified] times of the entries of a community, oldest first,
    never decrease; a regeneration at least one second after the latest
    entry makes an entry with a strictly later [last_modified] and another
    identity, and that entry becomes the latest. *)
Theorem last_modified_monotone rs c :
  StronglySorted Z.le (at_time <$> rs) →
  StronglySorted Z.le
    (last_modified <$> filter (λ e, community_ref e = c) (run rs)) ∧
  ∀ cache now payload,
    get_latest c (run rs) = Some cache →
    last_modified cache + 1000000 ≤ now →
    let entry := (regenerate now c payload (run rs)).1 in
    let store := (regenerate now c payload (run rs)).2 in
    last_modified cache < last_modified entry ∧
    seconds (last_modified cache) < seconds (last_modified entry) ∧
    cache_pk entry ≠ cache_pk cache ∧
    entry ≠ cache ∧
    get_latest c store = Some entry.
Proof.
  intros Hclock. split.
  - rewrite <- run_times in Hclock. apply StronglySorted_fmap_inv in Hclock.
    eapply (StronglySorted_fmap _ (λ a b, last_modified a ≤ last_modified b));
      [done|].
    by apply StronglySorted_filter.
  - intros cache now payload Hl Hnow entry store.
    apply get_latest_elem_of in Hl as (Hin & _ & _).
    apply run_cache_pk in Hin.
    assert (Hpk : cache_pk entry ≠ cache_pk cache).
    { subst entry. cbn. lia. }
    split_and!.
    + subst entry. cbn. lia.
    + subst entry. cbn. unfold seconds.
      apply Z.div_lt_upper_bound; [lia|].
      pose proof (Z.mul_div_le now 1000000 ltac:(lia)).
      pose proof (Z.mod_pos_bound (last_modified cache) 1000000 ltac:(lia)).
      pose proof (Z.div_mod (last_modified cache) 1000000 ltac:(lia)).
      pose proof (Z.div_le_mono (last_modified cache + 1000000) now 1000000
                    ltac:(lia) Hnow) as Hd.
      replace (last_modified cache + 1000000)
        with (last_modified cache + 1 * 1000000) in Hd by lia.
      rewrite Z.div_add in Hd by lia. lia.
    + done.
    + intros Heq. apply Hpk. by rewrite Heq.
    + apply get_latest_regenerate.
Qed.

End CacheProperties.

(** ** The theorems at concrete requests *)

Section Witnesses.
#[local] Existing Instance Plain.rest_framework.
#[local] Existing Instance Plain.url_conf.
Import APIV1PackageCache.

Lemma list_results_sorted_witness :
  ∃ resp log',
    list_ Example.db CommunityPackageListAPIView Example.kwargs
      Example.request_all [] = (inr resp, log') ∧
    ∃ params,
      is_valid Example.request_all = Some params ∧
      ordering params ∈ ["last-updated"; "most-downloaded"; "newest"; "top-rated"] ∧
      StronglySorted (listing_order (ordering params)) (results resp).
Proof.
  eexists _, _. split; [vm_compute; reflexivity|].
  eapply (list_results_sorted Example.db CommunityPackageListAPIView Example.kwargs
            Example.request_all []).
  vm_compute. reflexivity.
Defined.

Lemma list_pagination_links_witness :
  ∃ resp log',
    list_ Example.big_db CommunityPackageListAPIView Example.kwargs
      Example.request_page_2 [] = (inr resp, log') ∧
    (length (results resp) ≤ 20)%nat ∧
    is_Some (previous resp) ∧ is_Some (next resp).
Proof.
  eexists _, _. split; [vm_compute; reflexivity|].
  edestruct (list_pagination_links Example.big_db CommunityPackageListAPIView
               Example.kwargs Example.request_page_2 [])
    as (Hlen & params & n & Hv & Hn & Hrange & _ & _ & _ & _ & Hmid & _);
    [vm_compute; reflexivity|].
  split; [exact Hlen|].
  vm_compute in Hn. injection Hn as <-.
  destruct (Hmid eq_refl ltac:(vm_compute; reflexivity)) as (Hp & Hx & _).
  split; [exact Hp|exact Hx].
Defined.


Lemma missing_section_is_no_restriction_witness :
  (∀ queryset, filter_by_section Example.db (Some Example.missing_uuid) queryset
               = filter_by_section Example.db None queryset) ∧
  ∀ resp2 log2,
    list_ Example.db CommunityPackageListAPIView Example.kwargs [] []
    = (inr resp2, log2) →
    ∃ resp1 log1,
      list_ Example.db CommunityPackageListAPIView Example.kwargs
        Example.request_missing_section [] = (inr resp1, log1) ∧
      count resp1 = count resp2 ∧
      results resp1 = results resp2.
Proof.
  eapply (missing_section_is_no_restriction Example.db CommunityPackageListAPIView
            Example.kwargs Example.missing_uuid Example.request_missing_section []).
  - reflexivity.
  - vm_compute. reflexivity.
  - reflexivity.
  - vm_compute. reflexivity.
  - reflexivity.
Defined.

Lemma invalid_request_rejected_witness :
  is_valid Example.request_bad_ordering = None ∧
  ∃ e new,
    list_ Example.db CommunityPackageListAPIView Example.kwargs
      Example.request_bad_ordering [] = (inl e, ([] ++ new)%list) ∧
    (e = ValidationError ∨ e = Http404) ∧
    400 ≤ status_code e < 500 ∧
    Forall (λ x, is_package_query x = false) new.
Proof.
  apply (invalid_request_rejected_before_package_query Example.db
           CommunityPackageListAPIView Example.kwargs Example.request_bad_ordering []).
  - split; [eexists; reflexivity|discriminate].
  - left. left. exists "alphabetical". split; [reflexivity|].
    apply (bool_decide_unpack _). vm_compute. exact I.
Defined.

Lemma cached_endpoint_witness :
  status (package_list (run []) 1 None) = 503 ∧
  status (package_list (run Example.regenerations) 1 (Some 1700000001999999)) = 304 ∧
  status (package_list (run Example.regenerations) 1 (Some 1700000000250000)) = 200.
Proof.
  destruct cached_endpoint_conditional_semantics as [Hnone Hsome].
  split; [apply (Hnone [] 1); constructor|].
  edestruct (Hsome (run Example.regenerations) 1) as [H304 H200];
    [vm_compute; reflexivity|].
  split.
  - rewrite H304; [reflexivity|]. vm_compute. discriminate.
  - rewrite H200; [reflexivity|]. right. eexists. split; [reflexivity|].
    vm_compute. reflexivity.
Defined.

Lemma last_modified_monotone_witness :
  StronglySorted Z.le
    (last_modified <$> filter (λ e, community_ref e = 1) (run Example.regenerations)) ∧
  ∃ cache,
    get_latest 1 (run Example.regenerations) = Some cache ∧
    last_modified cache
    < last_modified (regenerate 1700000002250000 1 "third" (run Example.regenerations)).1.
Proof.
  destruct (last_modified_monotone Example.regenerations 1) as [Hsorted Hnext].
  { apply (bool_decide_unpack _). vm_compute. exact I. }
  split; [exact Hsorted|].
  eexists. split; [vm_compute; reflexivity|].
  eapply Hnext; [vm_compute; reflexivity|]. vm_compute. discriminate.
Defined.

End Witnesses.

(** * Further properties of the listing views *)

(** ** Category filters *)

Lemma in_categories_true ids l :
  in_categories ids l = true ↔ ∃ c, c ∈ categories l ∧ c ∈ ids.
Proof.
  unfold in_categories. rewrite existsb_exists. split.
  - intros (c & Hc & Hin). apply bool_decide_eq_true in Hin.
    exists c. split; [by apply list_elem_of_In|done].
  - intros (c & Hc & Hin). exists c. split; [by apply list_elem_of_In|].
    by apply bool_decide_eq_true.
Qed.

Lemma any_in_categories ids p :
  any_listing (in_categories ids) p = true ↔ has_category ids p.
Proof.
  rewrite any_listing_true. unfold has_category.
  setoid_rewrite in_categories_true. naive_solver.
Qed.

Lemma has_category_nil p : ¬ has_category [] p.
Proof. intros (l & c & _ & _ & Hc). by apply elem_of_nil in Hc. Qed.

Lemma filter_in_categories_elem ids queryset p :
  p ∈ filter_in_categories ids queryset ↔
  p ∈ queryset ∧ (ids = [] ∨ has_category ids p).
Proof.
  unfold filter_in_categories. destruct ids as [|i ids]; [naive_solver|].
  rewrite list_elem_of_filter, Is_true_true, any_in_categories. naive_solver.
Qed.

Lemma filter_not_in_categories_elem ids queryset p :
  p ∈ filter_not_in_categories ids queryset ↔
  p ∈ queryset ∧ ¬ has_category ids p.
Proof.
  unfold filter_not_in_categories. destruct ids as [|i ids].
  - pose proof (has_category_nil p). naive_solver.
  - rewrite list_elem_of_filter, <- any_in_categories.
    destruct (any_listing _ p); cbn; naive_solver.
Qed.

(** X1: the category filters OR-join their ids: [filter_in_categories]
    keeps the packages with a listing in one of the categories at least,
    [filter_not_in_categories] drops the packages with a listing in one of
    them; with no ids the first keeps everything, and so does the second. *)
Theorem category_filters_or_joined ids queryset p :
  (p ∈ filter_in_categories ids queryset ↔
   p ∈ queryset ∧
   (ids = [] ∨ ∃ l c, l ∈ community_listings p ∧ c ∈ categories l ∧ c ∈ ids)) ∧
  (p ∈ filter_not_in_categories ids queryset ↔
   p ∈ queryset ∧
   ∀ l c, l ∈ community_listings p → c ∈ categories l → c ∉ ids).
Proof.
  split.
  - apply filter_in_categories_elem.
  - rewrite filter_not_in_categories_elem. unfold has_category. naive_solver.
Qed.

(** X2: including and excluding the same categories selects nothing,
    whichever filter runs first. *)
Theorem include_and_exclude_same_categories ids queryset :
  ids ≠ [] →
  filter_not_in_categories ids (filter_in_categories ids queryset) = [] ∧
  filter_in_categories ids (filter_not_in_categories ids queryset) = [].
Proof.
  intros Hne. split; apply elem_of_nil_inv; intros p Hp.
  - apply filter_not_in_categories_elem in Hp as [Hp Hnot].
    apply filter_in_categories_elem in Hp as [_ [?|Hin]]; done.
  - apply filter_in_categories_elem in Hp as [Hp [?|Hin]]; [done|].
    apply filter_not_in_categories_elem in Hp as [_ Hnot]. done.
Qed.

Lemma include_and_exclude_same_categories_witness :
  filter_not_in_categories [1] (filter_in_categories [1] (packages Example.db)) = [] ∧
  filter_in_categories [1] (filter_not_in_categories [1] (packages Example.db)) = [].
Proof. apply include_and_exclude_same_categories. discriminate. Defined.

Lemma has_category_perm ids ids' p :
  ids ≡ₚ ids' → has_category ids p ↔ has_category ids' p.
Proof. intros Hp. unfold has_category. by setoid_rewrite Hp. Qed.

Lemma filter_in_categories_perm ids ids' queryset :
  ids ≡ₚ ids' → filter_in_categories ids queryset = filter_in_categories ids' queryset.
Proof.
  intros Hp. unfold filter_in_categories.
  destruct ids as [|i ids], ids' as [|i' ids']; try done.
  - by apply Permutation_nil_cons in Hp.
  - symmetry in Hp. by apply Permutation_nil_cons in Hp.
  - apply list_filter_iff. intros p.
    rewrite !Is_true_true, !any_in_categories. by apply has_category_perm.
Qed.

Lemma filter_not_in_categories_perm ids ids' queryset :
  ids ≡ₚ ids' →
  filter_not_in_categories ids queryset = filter_not_in_categories ids' queryset.
Proof.
  intros Hp. unfold filter_not_in_categories.
  destruct ids as [|i ids], ids' as [|i' ids']; try done.
  - by apply Permutation_nil_cons in Hp.
  - symmetry in Hp. by apply Permutation_nil_cons in Hp.
  - apply list_filter_iff. intros p.
    rewrite !negb_True, !Is_true_true, !any_in_categories.
    by rewrite (has_category_perm _ _ p Hp).
Qed.

(** X3: sorting the category ids, which [_get_validated_query_params] does
    for the sake of caching, keeps the ids, is stable when repeated, and
    changes nothing in what the category filters select. *)
Theorem sorted_category_ids_select_the_same ids queryset :
  sort ids ≡ₚ ids ∧
  sort (sort ids) = sort ids ∧
  filter_in_categories (sort ids) queryset = filter_in_categories ids queryset ∧
  filter_not_in_categories (sort ids) queryset = filter_not_in_categories ids queryset.
Proof.
  assert (Hp : sort ids ≡ₚ ids) by apply merge_sort_Permutation.
  split_and!; [done| |by apply filter_in_categories_perm
                  |by apply filter_not_in_categories_perm].
  by apply sort_permutation.
Qed.

(** ** The free-text filter *)

Lemma exclude_icontains_query parts queryset :
  exclude (icontains_query parts) queryset
  = match parts with
    | [] => queryset
    | _ => filter (λ p, existsb (Claimed.token_matches p) parts) queryset
    end.
Proof.
  destruct parts as [|part parts]; [done|].
  pose proof (icontains_query_nonempty (part :: parts) ltac:(done)) as Hne.
  pose proof (icontains_query_holds (part :: parts)) as Hholds.
  unfold exclude. destruct (icontains_query (part :: parts)) eqn:Hq; [done|..];
    apply list_filter_iff; intros p; by rewrite Hholds, negb_involutive.
Qed.

Lemma filter_by_query_elem query queryset p :
  p ∈ filter_by_query query queryset ↔ p ∈ queryset ∧ query_selects query p.
Proof.
  unfold filter_by_query, query_selects. destruct query as [q|]; [|naive_solver].
  destruct (Text.truthy q) eqn:Hq.
  - unfold distinct. rewrite elem_of_remove_dups, exclude_icontains_query.
    destruct (query_parts q) as [|part parts]; [naive_solver|].
    rewrite list_elem_of_filter, Is_true_true, existsb_exists.
    setoid_rewrite <- list_elem_of_In. naive_solver.
  - destruct q; [|done]. cbn. naive_solver.
Qed.

(** X4: the parts of a query are alternatives: a query with more parts
    selects at least the packages a query with some of these parts
    selects. *)
Theorem filter_by_query_more_parts_more_results q1 q2 queryset p :
  query_parts q1 ≠ [] →
  (∀ part, part ∈ query_parts q1 → part ∈ query_parts q2) →
  p ∈ filter_by_query (Some q1) queryset →
  p ∈ filter_by_query (Some q2) queryset.
Proof.
  intros Hne Hsub. rewrite !filter_by_query_elem. cbn [query_selects].
  intros [Hp [?|(part & Hpart & Hm)]]; [done|].
  split; [done|]. right. exists part. auto.
Qed.

Lemma filter_by_query_more_parts_more_results_witness :
  Example.foo_package ∈ filter_by_query (Some "foo bar") [Example.foo_package].
Proof.
  apply (filter_by_query_more_parts_more_results "foo" "foo bar").
  - discriminate.
  - intros part.
    replace (query_parts "foo") with ["foo"] by reflexivity.
    replace (query_parts "foo bar") with ["foo"; "bar"] by reflexivity.
    rewrite !elem_of_cons, !elem_of_nil. tauto.
  - replace (filter_by_query (Some "foo") [Example.foo_package])
      with [Example.foo_package] by (vm_compute; reflexivity).
    apply list_elem_of_here.
Defined.

(** X5: neither the order of the parts of a query nor their repetition
    matters: two non-empty queries with the same parts select the same
    list. *)
Theorem filter_by_query_ignores_part_order q1 q2 queryset :
  q1 ≠ "" → q2 ≠ "" →
  (∀ part, part ∈ query_parts q1 ↔ part ∈ query_parts q2) →
  filter_by_query (Some q1) queryset = filter_by_query (Some q2) queryset.
Proof.
  intros H1 H2 Hsame. unfold filter_by_query.
  destruct q1 as [|c1 q1]; [done|]. destruct q2 as [|c2 q2]; [done|].
  cbn [Text.truthy]. f_equal. rewrite !exclude_icontains_query.
  destruct (query_parts (String c1 q1)) as [|a1 l1] eqn:E1,
           (query_parts (String c2 q2)) as [|a2 l2] eqn:E2; [done|..].
  - exfalso. eapply elem_of_nil, Hsame, list_elem_of_here.
  - exfalso. eapply elem_of_nil, Hsame, list_elem_of_here.
  - apply list_filter_iff. intros p. rewrite !Is_true_true, !existsb_exists.
    setoid_rewrite <- list_elem_of_In. naive_solver.
Qed.

Lemma filter_by_query_ignores_part_order_witness :
  filter_by_query (Some "foo bar") (packages Example.db)
  = filter_by_query (Some " bar  foo bar") (packages Example.db).
Proof.
  apply filter_by_query_ignores_part_order; [discriminate|discriminate|].
  intros part.
  replace (query_parts "foo bar") with ["foo"; "bar"] by reflexivity.
  replace (query_parts " bar  foo bar") with ["bar"; "foo"; "bar"] by reflexivity.
  rewrite !elem_of_cons, !elem_of_nil. tauto.
Defined.

Lemma upper_ascii_idem c : Text.upper_ascii (Text.upper_ascii c) = Text.upper_ascii c.
Proof. destruct c as [[] [] [] [] [] [] [] []]; reflexivity. Qed.

Lemma upper_ascii_space c :
  Ascii.eqb (Text.upper_ascii c) " "%char = Ascii.eqb c " "%char.
Proof. destruct c as [[] [] [] [] [] [] [] []]; reflexivity. Qed.

Lemma upper_idem s : Text.upper (Text.upper s) = Text.upper s.
Proof. induction s as [|c s IH]; cbn; [done|]. by rewrite upper_ascii_idem, IH. Qed.

Lemma split_upper s :
  Text.split " "%char (Text.upper s) = Text.upper <$> Text.split " "%char s.
Proof.
  induction s as [|c s IH]; [done|]. cbn [Text.upper Text.split].
  rewrite upper_ascii_space, IH.
  destruct (Ascii.eqb c " "%char); [done|].
  by destruct (Text.split " "%char s).
Qed.

Lemma query_parts_upper q : query_parts (Text.upper q) = Text.upper <$> query_parts q.
Proof.
  unfold query_parts. rewrite split_upper.
  induction (Text.split " "%char q) as [|w ws IH]; [done|].
  csimpl. rewrite !filter_cons, IH. by destruct w.
Qed.

Lemma token_matches_upper p part :
  Claimed.token_matches p (Text.upper part) = Claimed.token_matches p part.
Proof.
  unfold Claimed.token_matches, search_fields. cbn [existsb q_holds].
  unfold Text.icontains. by rewrite upper_idem.
Qed.

Lemma existsb_token_matches_upper p parts :
  existsb (Claimed.token_matches p) (Text.upper <$> parts)
  = existsb (Claimed.token_matches p) parts.
Proof.
  induction parts as [|b l IH]; [done|]. csimpl. by rewrite token_matches_upper, IH.
Qed.

(** X6: the case of the query does not matter: a query and its upper-case
    spelling select the same list. *)
Theorem filter_by_query_ignores_query_case q queryset :
  filter_by_query (Some (Text.upper q)) queryset = filter_by_query (Some q) queryset.
Proof.
  unfold filter_by_query. destruct q as [|c q]; [done|].
  cbn [Text.upper Text.truthy]. f_equal. rewrite !exclude_icontains_query.
  change (String (Text.upper_ascii c) (Text.upper q)) with (Text.upper (String c q)).
  rewrite query_parts_upper.
  destruct (query_parts (String c q)) as [|a l]; [done|]. csimpl.
  apply list_filter_iff. intros p. cbn [existsb].
  by rewrite token_matches_upper, existsb_token_matches_upper.
Qed.

Lemma split_no_separator sep s part :
  part ∈ Text.split sep s → sep ∉ chars part.
Proof.
  revert part. induction s as [|c s IH]; intros part; cbn [Text.split].
  - intros ->%list_elem_of_singleton. cbn. apply not_elem_of_nil.
  - destruct (Ascii.eqb_spec c sep) as [->|Hne].
    + intros [->|Hin]%elem_of_cons; [apply not_elem_of_nil|auto].
    + destruct (Text.split sep s) as [|w ws].
      * intros ->%list_elem_of_singleton. cbn. set_solver.
      * intros [->|Hin]%elem_of_cons.
        -- cbn. specialize (IH w ltac:(left)). set_solver.
        -- apply IH. by right.
Qed.

Lemma query_parts_nil_all_spaces q : query_parts q = [] ↔ all_spaces q = true.
Proof.
  unfold query_parts. induction q as [|c q IH]; [done|].
  cbn [Text.split all_spaces].
  destruct (Ascii.eqb c " "%char); cbn [andb].
  - rewrite filter_cons. cbn. by rewrite decide_False by auto.
  - destruct (Text.split " "%char q); rewrite filter_cons; cbn;
      rewrite decide_True by done; done.
Qed.

(** X7: the parts [filter_by_query] searches for are never empty and never
    hold a space; a query has no parts exactly when it is made of spaces
    only, and such a query, when not empty, filters nothing: the
    queryset comes back with [distinct] applied. *)
Theorem query_of_spaces_filters_nothing q :
  (∀ part, part ∈ query_parts q → part ≠ "" ∧ " "%char ∉ chars part) ∧
  (query_parts q = [] ↔ all_spaces q = true) ∧
  (all_spaces q = true → q ≠ "" →
   ∀ queryset, filter_by_query (Some q) queryset = distinct queryset).
Proof.
  split_and!.
  - intros part Hpart. unfold query_parts in Hpart.
    apply list_elem_of_filter in Hpart as [Ht Hin]. split.
    + by destruct part.
    + by eapply split_no_separator.
  - apply query_parts_nil_all_spaces.
  - intros Hsp Hne queryset. unfold filter_by_query.
    destruct q as [|c q]; [done|]. cbn [Text.truthy].
    apply query_parts_nil_all_spaces in Hsp. by rewrite Hsp.
Qed.

Lemma query_of_spaces_filters_nothing_witness :
  filter_by_query (Some "   ") (packages Example.db) = distinct (packages Example.db).
Proof.
  apply (query_of_spaces_filters_nothing "   "); [reflexivity|discriminate].
Defined.

(** ** The filter pipeline *)

Lemma filter_by_review_status_elem require_approval queryset p :
  p ∈ filter_by_review_status require_approval queryset ↔
  p ∈ queryset ∧
  ∃ l, l ∈ community_listings p ∧
       (review_status l = approved ∨
        (require_approval = false ∧ review_status l = unreviewed)).
Proof.
  unfold filter_by_review_status.
  rewrite list_elem_of_filter, Is_true_true, any_listing_true.
  setoid_rewrite bool_decide_eq_true. unfold review_statuses.
  destruct require_approval; cbn; set_solver.
Qed.

Lemma filter_by_section_elem db u queryset p :
  p ∈ filter_by_section db u queryset ↔ p ∈ queryset ∧ section_selects db u p.
Proof.
  unfold filter_by_section, section_selects. destruct u as [u|]; [|naive_solver].
  destruct (sections db !! u) as [s|]; cbn.
  - rewrite filter_not_in_categories_elem, filter_in_categories_elem. naive_solver.
  - naive_solver.
Qed.

Lemma passes_sort_lists db require_approval params p :
  passes db require_approval (sort_lists params) p ↔ passes db require_approval params p.
Proof.
  unfold passes. cbn [sort_lists deprecated nsfw included_categories
                      excluded_categories section q].
  assert (Hin : sort (included_categories params) ≡ₚ included_categories params)
    by apply merge_sort_Permutation.
  assert (Hex : sort (excluded_categories params) ≡ₚ excluded_categories params)
    by apply merge_sort_Permutation.
  rewrite (has_category_perm _ _ p Hin), (has_category_perm _ _ p Hex).
  assert (sort (included_categories params) = [] ↔ included_categories params = []).
  { split; intros Hnil.
    - rewrite Hnil in Hin. symmetry. by apply Permutation_nil_l.
    - by rewrite Hnil. }
  naive_solver.
Qed.

Lemma apply_filters_elem db require_approval params base p :
  p ∈ apply_filters db require_approval params base ↔
  p ∈ base ∧ passes db require_approval params p.
Proof.
  unfold apply_filters, passes.
  rewrite filter_by_query_elem, filter_by_section_elem,
    filter_not_in_categories_elem, filter_in_categories_elem,
    filter_nsfw_elem, filter_deprecated_elem, filter_by_review_status_elem.
  naive_solver.
Qed.

Section MoreViewProperties.
Context `{RestFramework} `{UrlConf}.
Variable db : Database.
Variable self : ViewClass.
Variable kwargs : list (string * string).

Import PackageListPaginator.

(** X8: the filters of [filter_queryset] are joined by AND: the queryset
    it returns holds exactly the packages of [get_queryset] that pass the
    review-status, deprecated, NSFW, included-category, excluded-category,
    section and free-text conditions of the validated parameters. *)
Theorem filter_queryset_selects query_params queryset0 log queryset log' :
  filter_queryset db self kwargs query_params queryset0 log = (inr queryset, log') →
  ∃ community_id community params base l l',
    dict_get kwargs "community_id" = Some community_id ∧
    communities db !! community_id = Some community ∧
    is_valid query_params = Some params ∧
    get_queryset db self kwargs l = (inr base, l') ∧
    ∀ p, p ∈ queryset ↔
         p ∈ base ∧
         passes db (require_package_listing_approval community) params p.
Proof.
  intros Hrun.
  apply filter_queryset_inr in Hrun
    as (cid & community & params & arg & base & l & l' & Hk & Hc & Hb & Hv & Harg & ->).
  exists cid, community, params, base, l, l'. split_and!; auto.
  intros p. rewrite order_by_permutation, apply_filters_elem, passes_sort_lists. done.
Qed.

End MoreViewProperties.

Section MoreViewWitnesses.
#[local] Existing Instance Plain.rest_framework.
#[local] Existing Instance Plain.url_conf.

Lemma filter_queryset_selects_witness :
  ∃ queryset log',
    filter_queryset Example.db CommunityPackageListAPIView Example.kwargs
      Example.request_all [] [] = (inr queryset, log') ∧
    ∃ community_id community params base l l',
      dict_get Example.kwargs "community_id" = Some community_id ∧
      communities Example.db !! community_id = Some community ∧
      is_valid Example.request_all = Some params ∧
      get_queryset Example.db CommunityPackageListAPIView Example.kwargs l
      = (inr base, l') ∧
      ∀ p, p ∈ queryset ↔
           p ∈ base ∧
           passes Example.db (require_package_listing_approval community) params p.
Proof.
  eexists _, _. split; [vm_compute; reflexivity|].
  eapply (filter_queryset_selects Example.db CommunityPackageListAPIView Example.kwargs
            Example.request_all [] []).
  vm_compute. reflexivity.
Defined.

End MoreViewWitnesses.

(** ** Validation and the ways a request ends *)

Section ValidationProperties.
Context `{RestFramework} `{UrlConf}.
Variable db : Database.
Variable self : ViewClass.
Variable kwargs : list (string * string).

Import PackageListPaginator.

Lemma is_valid_fields query_params params :
  is_valid query_params = Some params →
  with_default boolean_to_internal_value false (get_value query_params "deprecated")
  = Some (deprecated params) ∧
  integer_list_field (get_list_value query_params "excluded_categories")
  = Some (excluded_categories params) ∧
  integer_list_field (get_list_value query_params "included_categories")
  = Some (included_categories params) ∧
  with_default boolean_to_internal_value false (get_value query_params "nsfw")
  = Some (nsfw params) ∧
  with_default choice_to_internal_value "last-updated" (get_value query_params "ordering")
  = Some (ordering params) ∧
  with_default page_to_internal_value 1 (get_value query_params "page")
  = Some (page params) ∧
  optional char_to_internal_value (get_value query_params "q") = Some (q params) ∧
  optional uuid_to_internal_value (get_value query_params "section")
  = Some (section params).
Proof.
  unfold is_valid. intros Hv.
  repeat (match type of Hv with
          | context [mbind _ ?o] => destruct o eqn:?; cbn in Hv; [|discriminate]
          end).
  injection Hv as <-. cbn. done.
Qed.

Lemma ORDER_ARGS_total o :
  o ∈ ["last-updated"; "most-downloaded"; "newest"; "top-rated"] →
  is_Some (dict_get ORDER_ARGS o).
Proof.
  rewrite !elem_of_cons, elem_of_nil.
  intros [->|[->|[->|[->|[]]]]]; eexists; reflexivity.
Qed.

Lemma is_valid_ordering query_params params :
  is_valid query_params = Some params →
  ordering params ∈ ["last-updated"; "most-downloaded"; "newest"; "top-rated"].
Proof.
  intros Hv. apply is_valid_fields in Hv as (_ & _ & _ & _ & Ho & _).
  destruct (get_value query_params "ordering") as [v|]; cbn in Ho.
  - unfold choice_to_internal_value in Ho. case_bool_decide as Hin; [|done].
    by injection Ho as <-.
  - injection Ho as <-. set_solver.
Qed.

(** X9: the invariants of validated parameters: the ordering is a key of
    [ORDER_ARGS], so that [ORDER_ARGS[params["ordering"]]] cannot raise, and
    the page is at least 1; parameters that are not supplied take their
    defaults: flags false, no category ids, ordering "last-updated",
    page 1, no query and no section. *)
Theorem validated_params_invariants query_params params :
  is_valid query_params = Some params →
  ordering params ∈ ["last-updated"; "most-downloaded"; "newest"; "top-rated"] ∧
  is_Some (dict_get ORDER_ARGS (ordering params)) ∧
  1 ≤ page params ∧
  (get_value query_params "deprecated" = None → deprecated params = false) ∧
  (get_value query_params "nsfw" = None → nsfw params = false) ∧
  (get_list_value query_params "excluded_categories" = None →
   excluded_categories params = []) ∧
  (get_list_value query_params "included_categories" = None →
   included_categories params = []) ∧
  (get_value query_params "ordering" = None → ordering params = "last-updated") ∧
  (get_value query_params "page" = None → page params = 1) ∧
  (get_value query_params "q" = None → q params = None) ∧
  (get_value query_params "section" = None → section params = None).
Proof.
  intros Hv. pose proof (is_valid_ordering _ _ Hv) as Ho.
  apply is_valid_fields in Hv as (Hd & Hex & Hin & Hn & Hord & Hp & Hq & Hs).
  split_and!; [done|by apply ORDER_ARGS_total| |
               intros Hnone; rewrite Hnone in *; cbn in *; congruence ..].
  destruct (get_value query_params "page") as [v|]; cbn in Hp.
  - unfold page_to_internal_value in Hp.
    destruct (integer_to_internal_value v) as [n|]; cbn in Hp; [|done].
    case_bool_decide; [|done]. by injection Hp as <-.
  - injection Hp as <-. lia.
Qed.

End ValidationProperties.

(** ** The order of lookups, and what a response holds *)

Section EffectProperties.
Context `{RestFramework} `{UrlConf}.
Variable db : Database.
Variable self : ViewClass.
Variable kwargs : list (string * string).

Import PackageListPaginator.

(** X11: an unknown community ends the request with 404 before the
    query string is looked at: the outcome is the same for every query
    string, valid or not, and no query on packages or sections is run. *)
Theorem unknown_community_is_404 community_id query_params log :
  routed db self kwargs →
  dict_get kwargs "community_id" = Some community_id →
  communities db !! community_id = None →
  ∃ new,
    list_ db self kwargs query_params log = (inl Http404, (log ++ new)%list) ∧
    Forall (λ x, ∃ name, x = SelectCommunity name ∨ x = SelectNamespace name) new ∧
    ∀ query_params',
      list_ db self kwargs query_params' log = list_ db self kwargs query_params log.
Proof.
  intros [_ Hns] Hcid Hnone.
  unfold list_, filter_queryset, get_queryset, base_get_queryset,
    _get_community, get_namespace, kwarg, bind, execute, ret, raise.
  rewrite Hcid, Hnone.
  destruct self.
  - eexists. split; [reflexivity|]. split; [|done]. repeat constructor. eauto.
  - destruct Hns as (ns & Hk & Hlen); [done|]. rewrite Hk.
    destruct (filter _ (namespaces db)) as [|n0 [|n1 l]]; cbn in Hlen; [| |lia];
      eexists; rewrite <- ?(assoc_L (++)); (split; [reflexivity|]);
      (split; [|done]); repeat constructor; eauto.
Qed.

(** X12: the page of a request exists exactly when its number lies
    between 1 and the number of pages, which is at least 1, so that page 1
    of an empty queryset exists; a number below 1 is refused before any
    query, a number above the last page after the count and before any
    package is read. For a page that exists the packages are counted
    first; the page of an empty queryset is not read, the page of another
    is read right after the count, and what follows the read counts and
    reads no package. *)
Theorem paginate_queryset_range query_params queryset log n :
  paginator_page_number query_params = Some n →
  1 ≤ num_pages (Z.of_nat (length queryset)) ∧
  (1 ≤ n ≤ num_pages (Z.of_nat (length queryset)) →
   ∃ page reads,
     paginate_queryset query_params queryset log
     = (inr page, (log ++ CountPackages :: reads)%list) ∧
     number page = n ∧
     (queryset = [] → reads = []) ∧
     (queryset ≠ [] →
      ∃ rest, reads = SelectPackages :: rest ∧
              Forall (λ x, is_package_query x = false) rest)) ∧
  (n < 1 → paginate_queryset query_params queryset log = (inl NotFound, log)) ∧
  (num_pages (Z.of_nat (length queryset)) < n →
   paginate_queryset query_params queryset log
   = (inl NotFound, (log ++ [CountPackages])%list)).
Proof.
  intros Hn.
  assert (Hpages : 1 ≤ num_pages (Z.of_nat (length queryset))).
  { unfold num_pages, page_size. apply Z.div_le_lower_bound; lia. }
  split; [done|]. split_and!.
  - intros Hr.
    destruct (get_page queryset n) as [page|] eqn:Hpage.
    2:{ unfold get_page, validate_number in Hpage.
        repeat case_bool_decide; try lia; done. }
    pose proof Hpage as (_ & Hnum & Hcount & _)%get_page_Some.
    unfold paginate_queryset, bind, execute, execute_all, ret, raise.
    rewrite Hn, bool_decide_eq_false_2, Hpage by lia.
    rewrite Hnum, Hcount.
    pose proof (slice_empty (Z.of_nat (length queryset)) n ltac:(lia) Hr) as Hempty.
    case_bool_decide as Hslice.
    + exists page, []. split_and!; [done|done|done|].
      intros Hne. apply Hempty in Hslice. destruct queryset; [done|]. cbn in Hslice. lia.
    + exists page, (SelectPackages :: prefetch_queries (object_list page)).
      rewrite <- !(assoc_L (++)). split_and!; [done|done| |].
      * intros ->. destruct Hslice. by apply Hempty.
      * intros _. eexists. split; [done|]. apply prefetch_queries_no_package.
  - intros Hlt. unfold paginate_queryset, raise.
    by rewrite Hn, bool_decide_eq_true_2.
  - intros Hgt. unfold paginate_queryset, get_page, validate_number, bind, execute, raise.
    rewrite Hn, bool_decide_eq_false_2 by lia. cbn.
    rewrite bool_decide_eq_true_2 by lia. done.
Qed.

Lemma get_queryset_scope log base log' :
  get_queryset db self kwargs log = (inr base, log') →
  ∃ community_id community,
    dict_get kwargs "community_id" = Some community_id ∧
    communities db !! community_id = Some community ∧
    ∀ p, p ∈ base →
         p ∈ packages db ∧ is_active p = true ∧
         (∃ l, l ∈ community_listings p ∧
               listing_community l = community_pk community) ∧
         (self = NamespacePackageListAPIView →
          ∃ ns, dict_get kwargs "namespace_id" = Some ns ∧
                Text.upper (namespace_name p) = Text.upper ns).
Proof.
  assert (Hscope : ∀ community p,
            p ∈ get_community_package_queryset db community →
            p ∈ packages db ∧ is_active p = true ∧
            ∃ l, l ∈ community_listings p ∧
                 listing_community l = community_pk community).
  { intros community p. unfold get_community_package_queryset, active.
    rewrite !list_elem_of_filter, !Is_true_true, any_listing_true.
    setoid_rewrite bool_decide_eq_true. naive_solver. }
  unfold get_queryset, base_get_queryset, _get_community, get_namespace, kwarg,
    bind, execute, ret, raise.
  intros Hrun. repeat case_match; simplify_eq; eexists _, _;
    (split; [reflexivity|]); (split; [eassumption|]); intros p Hp.
  - destruct (Hscope _ _ Hp) as (? & ? & ?). split_and!; auto. done.
  - apply list_elem_of_filter in Hp as [Hname Hp].
    destruct (Hscope _ _ Hp) as (? & ? & ?). split_and!; auto.
    intros _. eexists. split; [reflexivity|].
    match goal with
    | Hf : filter _ (namespaces db) = [?n] |- _ =>
        assert (Hin : n ∈ filter (λ n0, Text.upper n0 = Text.upper _) (namespaces db))
          by (rewrite Hf; apply list_elem_of_here)
    end.
    apply list_elem_of_filter in Hin as [Hup _]. by rewrite Hname.
Qed.

(** X13: every package of a response is an active package with a listing
    in the community of the url and, in the namespace view, of the
    namespace of the url, compared without case. *)
Theorem list_results_in_scope query_params log resp log' :
  list_ db self kwargs query_params log = (inr resp, log') →
  ∃ community_id community,
    dict_get kwargs "community_id" = Some community_id ∧
    communities db !! community_id = Some community ∧
    ∀ p, p ∈ results resp →
         p ∈ packages db ∧ is_active p = true ∧
         (∃ l, l ∈ community_listings p ∧
               listing_community l = community_pk community) ∧
         (self = NamespacePackageListAPIView →
          ∃ ns, dict_get kwargs "namespace_id" = Some ns ∧
                Text.upper (namespace_name p) = Text.upper ns).
Proof.
  intros Hrun.
  apply list_inr in Hrun
    as (community & params & arg & base & n & page & data & Hv & Harg & (cid & Hk & Hc)
        & (l & l' & Hb) & _ & Hn & Hpage & ->).
  apply get_queryset_scope in Hb as (cid' & community' & Hk' & Hc' & Hscope).
  exists cid', community'. split_and!; auto.
  intros p Hp. cbn [results] in Hp.
  apply get_page_Some in Hpage as (_ & _ & _ & (i & j & Hobj) & _).
  rewrite Hobj in Hp. apply subseteq_take, subseteq_drop in Hp.
  rewrite order_by_permutation in Hp. apply apply_filters_elem in Hp as [Hp _].
  auto.
Qed.

(** X14: [count] is the number of packages that pass the filters, on
    whichever page the request is, and a page never holds more packages
    than that. *)
Theorem list_count_is_total query_params log resp log' :
  list_ db self kwargs query_params log = (inr resp, log') →
  ∃ community_id community params base l l',
    dict_get kwargs "community_id" = Some community_id ∧
    communities db !! community_id = Some community ∧
    is_valid query_params = Some params ∧
    get_queryset db self kwargs l = (inr base, l') ∧
    count resp
    = Z.of_nat (length (apply_filters db (require_package_listing_approval community)
                          (sort_lists params) base)) ∧
    Z.of_nat (length (results resp)) ≤ count resp.
Proof.
  intros Hrun.
  apply list_inr in Hrun
    as (community & params & arg & base & n & page & data & Hv & Harg & (cid & Hk & Hc)
        & (l & l' & Hb) & _ & Hn & Hpage & ->).
  exists cid, community, params, base, l, l'. split_and!; auto; cbn [count results].
  - apply get_page_Some in Hpage as (_ & _ & -> & _ & _).
    by rewrite order_by_permutation.
  - apply get_page_Some in Hpage as (_ & _ & -> & (i & j & ->) & _).
    rewrite length_take, length_drop. lia.
Qed.

Lemma get_queryset_inl log e log' :
  routed db self kwargs →
  get_queryset db self kwargs log = (inl e, log') → e = Http404.
Proof.
  intros [[cid Hcid] Hns].
  unfold get_queryset, base_get_queryset, _get_community, get_namespace, kwarg,
    bind, execute, ret, raise.
  rewrite Hcid. destruct self.
  - intros Hrun. repeat case_match; simplify_eq; auto.
  - destruct Hns as (ns & Hk & Hlen); [done|]. rewrite Hk.
    destruct (filter _ (namespaces db)) as [|n0 [|n1 l]]; cbn in Hlen; [| |lia];
      intros Hrun; repeat case_match; simplify_eq; auto.
Qed.

Lemma filter_queryset_inl query_params qs0 log e log' :
  routed db self kwargs →
  filter_queryset db self kwargs query_params qs0 log = (inl e, log') →
  e = Http404 ∨ e = ValidationError.
Proof.
  intros Hr. pose proof Hr as [[cid Hcid] _].
  unfold filter_queryset. intros Hrun.
  apply bind_inl in Hrun as [Hc|(community & l1 & Hc & Hrun)].
  { left. unfold _get_community, kwarg, bind, execute, ret, raise in Hc.
    rewrite Hcid in Hc. repeat case_match; simplify_eq; done. }
  apply bind_inl in Hrun as [Hb|(base & l2 & Hb & Hrun)].
  { left. by eapply get_queryset_inl. }
  apply bind_inl in Hrun as [Hp|(params & l3 & Hp & Hrun)].
  { right. unfold _get_validated_query_params, ret, raise in Hp.
    repeat case_match; simplify_eq; done. }
  unfold _get_validated_query_params, ret, raise in Hp.
  destruct (is_valid query_params) as [params0|] eqn:Hv; simplify_eq.
  apply bind_inl in Hrun as [Hs|(qs1 & l4 & Hs & Hrun)].
  { unfold filter_by_section_q, bind, execute, ret in Hs.
    repeat case_match; simplify_eq. }
  destruct (ORDER_ARGS_total _ (is_valid_ordering _ _ Hv)) as [arg Harg].
  cbn [ordering sort_lists] in Hrun. rewrite Harg in Hrun. done.
Qed.

Lemma paginate_queryset_inl query_params queryset log e log' :
  paginate_queryset query_params queryset log = (inl e, log') → e = NotFound.
Proof.
  unfold paginate_queryset, bind, execute, execute_all, ret, raise. intros Hrun.
  repeat case_match; simplify_eq; done.
Qed.

Lemma package_dict_inr community_id p log d log' :
  package_dict db community_id p log = (inr d, log') →
  log' = (log ++ [SelectListing (pk p) community_id])%list ∧
  renders db community_id p d.
Proof.
  unfold package_dict, renders, listings_in, bind, execute, ret, raise.
  intros Hrun.
  destruct (filter _ (community_listings p)) as [|listing [|]]; try done.
  destruct (latest p) as [v|]; [|done]. injection Hrun as <- <-.
  split; [done|]. exists listing, v. split_and!; done.
Qed.

Lemma package_dict_inl community_id p log e log' :
  package_dict db community_id p log = (inl e, log') →
  (e = DoesNotExist ∧ listings_in db community_id p = []) ∨
  (e = AttributeError ∧ latest p = None) ∨
  (e = MultipleObjectsReturned ∧ (1 < length (listings_in db community_id p))%nat).
Proof.
  unfold package_dict, listings_in, bind, execute, ret, raise.
  intros Hrun.
  destruct (filter _ (community_listings p)) as [|listing [|]].
  - left. by injection Hrun as <- _.
  - right. left. destruct (latest p); [done|]. by injection Hrun as <- _.
  - right. right. injection Hrun as <- _. split; [done|]. cbn. lia.
Qed.

Lemma for_each_package_dict_inr community_id rows log ds log' :
  for_each (package_dict db community_id) rows log = (inr ds, log') →
  log' = (log ++ listing_lookups community_id rows)%list ∧
  Forall2 (renders db community_id) rows ds.
Proof.
  revert log ds. induction rows as [|p rows IH]; intros log ds; cbn [for_each].
  - unfold ret. intros [= <- <-]. split; [by rewrite app_nil_r|constructor].
  - intros Hrun.
    apply bind_inr in Hrun as (d & l1 & Hd & Hrun).
    apply bind_inr in Hrun as (ds' & l2 & Hr & Hrun).
    unfold ret in Hrun. injection Hrun as <- <-.
    apply package_dict_inr in Hd as [-> Hd].
    apply IH in Hr as [-> Hr].
    split; [|by constructor].
    unfold listing_lookups. cbn [fmap list_fmap]. by rewrite <- (assoc_L (++)).
Qed.

Lemma get_serializer_inr page log data log' :
  get_serializer db kwargs page log = (inr data, log') →
  ∃ community_id,
    dict_get kwargs "community_id" = Some community_id ∧
    log' = (log ++ listing_lookups community_id (object_list page))%list ∧
    Forall2 (renders db community_id) (object_list page) data.
Proof.
  unfold get_serializer, _get_packages_dicts, kwarg. intros Hrun.
  apply bind_inr in Hrun as (cid & l1 & Hk & Hrun).
  destruct (dict_get kwargs "community_id") as [cid'|]; [|done].
  unfold ret in Hk. injection Hk as -> <-.
  apply for_each_package_dict_inr in Hrun as [-> Hd]. eauto.
Qed.

Lemma get_serializer_inl page log e log' :
  get_serializer db kwargs page log = (inl e, log') →
  e = KeyError ∧ dict_get kwargs "community_id" = None ∨
  ∃ community_id p,
    dict_get kwargs "community_id" = Some community_id ∧
    p ∈ object_list page ∧
    ((e = DoesNotExist ∧ listings_in db community_id p = []) ∨
     (e = AttributeError ∧ latest p = None) ∨
     (e = MultipleObjectsReturned ∧
      (1 < length (listings_in db community_id p))%nat)).
Proof.
  unfold get_serializer, _get_packages_dicts, kwarg. intros Hrun.
  destruct (dict_get kwargs "community_id") as [cid|].
  - right. unfold bind at 1, ret in Hrun.
    apply for_each_inl in Hrun as (p & l & l' & Hin & Hp).
    apply package_dict_inl in Hp. eauto.
  - left. unfold bind, raise in Hrun. by injection Hrun as <- _.
Qed.

Lemma page_rows_in_scope query_params qs0 log qs log' n page p :
  filter_queryset db self kwargs query_params qs0 log = (inr qs, log') →
  get_page qs n = Some page →
  p ∈ object_list page →
  ∃ community_id community l,
    dict_get kwargs "community_id" = Some community_id ∧
    communities db !! community_id = Some community ∧
    p ∈ packages db ∧
    l ∈ community_listings p ∧
    listing_community l = community_pk community.
Proof.
  intros Hf Hpage Hp.
  apply filter_queryset_inr in Hf
    as (cid & community & params & arg & base & l5 & l6 & Hk & Hc & Hb & Hv & Harg & ->).
  apply get_queryset_scope in Hb as (cid' & community' & Hk' & Hc' & Hscope).
  rewrite Hk in Hk'. injection Hk' as <-. rewrite Hc in Hc'. injection Hc' as <-.
  apply get_page_Some in Hpage as (_ & _ & _ & (i & j & Hobj) & _).
  rewrite Hobj in Hp. apply subseteq_take, subseteq_drop in Hp.
  rewrite order_by_permutation in Hp. apply apply_filters_elem in Hp as [Hp _].
  destruct (Hscope p Hp) as (Hin & _ & (l & Hl & Hlc) & _).
  exists cid, community, l. done.
Qed.


Lemma get_queryset_log log qs log' :
  get_queryset db self kwargs log = (inr qs, log') →
  ∃ community_id,
    dict_get kwargs "community_id" = Some community_id ∧
    (self = NamespacePackageListAPIView → is_Some (dict_get kwargs "namespace_id")) ∧
    log' = (log ++ queryset_lookups self community_id
                     (default "" (dict_get kwargs "namespace_id")))%list.
Proof.
  unfold get_queryset, base_get_queryset, _get_community, get_namespace, kwarg,
    bind, execute, ret, raise.
  intros Hrun.
  destruct (dict_get kwargs "community_id") as [cid|] eqn:Hcid;
    [|destruct self; repeat case_match; simplify_eq].
  exists cid. split; [done|].
  destruct self; cbn [queryset_lookups].
  - split; [done|]. repeat case_match; simplify_eq; done.
  - destruct (dict_get kwargs "namespace_id") as [ns|] eqn:Hns;
      [|repeat case_match; simplify_eq].
    split; [eauto|]. cbn [default from_option].
    repeat case_match; simplify_eq; by rewrite <- ?(assoc_L (++)).
Qed.

Lemma filter_queryset_log query_params qs0 log qs log' :
  filter_queryset db self kwargs query_params qs0 log = (inr qs, log') →
  ∃ community_id params section_part,
    dict_get kwargs "community_id" = Some community_id ∧
    is_valid query_params = Some params ∧
    log' = (log ++ [SelectCommunity community_id]
                ++ queryset_lookups self community_id
                     (default "" (dict_get kwargs "namespace_id"))
                ++ section_part)%list ∧
    Forall (λ x, is_package_query x = false) section_part ∧
    (section params = None → section_part = []).
Proof.
  unfold filter_queryset. intros Hrun.
  apply bind_inr in Hrun as (community & l1 & Hc & Hrun).
  apply bind_inr in Hrun as (base & l2 & Hb & Hrun).
  apply bind_inr in Hrun as (params & l3 & Hp & Hrun).
  apply bind_inr in Hrun as (qs1 & l4 & Hs & Hrun).
  unfold _get_validated_query_params, ret, raise in Hp.
  destruct (is_valid query_params) as [params0|] eqn:Hv; simplify_eq.
  cbn [ordering sort_lists] in Hrun.
  destruct (dict_get ORDER_ARGS (ordering params0)) as [arg|];
    unfold ret, raise in Hrun; simplify_eq.
  unfold _get_community, kwarg, bind, execute, ret, raise in Hc.
  destruct (dict_get kwargs "community_id") as [cid|] eqn:Hk; simplify_eq.
  destruct (communities db !! cid) as [c|]; simplify_eq.
  apply get_queryset_log in Hb as (cid' & Hk' & _ & ->).
  rewrite Hk in Hk'. injection Hk' as <-.
  unfold filter_by_section_q, bind, execute, ret in Hs. cbn [section sort_lists] in Hs.
  exists cid, params0.
  destruct (section params0) as [u|]; [destruct (sections db !! u)|];
    simplify_eq.
  - exists [SelectSection u; PrefetchRelated "require_categories";
            PrefetchRelated "exclude_categories";
            SelectCategoryIds u "require_categories";
            SelectCategoryIds u "exclude_categories"].
    rewrite <- !(assoc_L (++)). split_and!; [done|done|done|repeat constructor|done].
  - exists [SelectSection u].
    rewrite <- !(assoc_L (++)). split_and!; [done|done|done|repeat constructor|done].
  - exists []. rewrite app_nil_r, <- !(assoc_L (++)).
    split_and!; [done|done|done|constructor|done].
Qed.

Lemma paginate_queryset_log query_params queryset log page log' :
  paginate_queryset query_params queryset log = (inr page, log') →
  ∃ reads,
    log' = (log ++ CountPackages :: reads)%list ∧
    (paginator_count page = 0 → reads = []) ∧
    (paginator_count page ≠ 0 →
     ∃ rest, reads = SelectPackages :: rest ∧
             Forall (λ x, is_package_query x = false) rest).
Proof.
  intros Hrun. pose proof Hrun as (n & Hn & Hpage)%paginate_queryset_inr.
  pose proof Hpage as (Hr & Hnum & Hcount & _)%get_page_Some.
  pose proof (slice_empty (Z.of_nat (length queryset)) n ltac:(lia) Hr) as Hempty.
  unfold paginate_queryset, bind, execute, execute_all, ret, raise in Hrun.
  rewrite Hn, bool_decide_eq_false_2, Hpage, Hnum, Hcount in Hrun by lia.
  rewrite Hcount. case_bool_decide as Hslice; injection Hrun as <-.
  - exists []. split_and!; [done|done|]. intros Hne. by apply Hempty in Hslice.
  - exists (SelectPackages :: prefetch_queries (object_list page)).
    rewrite <- !(assoc_L (++)). split_and!; [done| |].
    + intros Hzero. destruct Hslice. by apply Hempty.
    + intros _. eexists. split; [done|]. apply prefetch_queries_no_package.
Qed.

(** X15: the queries of a successful request, in order: [get_queryset]
    runs its lookups for [list], [filter_queryset] looks the community up
    and runs [get_queryset] again, so the community is looked up three
    times; then come the queries of the section, when one is named, which
    read no package; then the packages are counted, and, unless the count
    is zero, the page is read; last, the listing of each row of the page is
    looked up, in the order of the rows. *)
Theorem list_queries_on_success query_params log resp log' :
  list_ db self kwargs query_params log = (inr resp, log') →
  ∃ community_id ns params section_part reads,
    dict_get kwargs "community_id" = Some community_id ∧
    (self = NamespacePackageListAPIView → dict_get kwargs "namespace_id" = Some ns) ∧
    is_valid query_params = Some params ∧
    log' = (log ++ queryset_lookups self community_id ns
                ++ [SelectCommunity community_id]
                ++ queryset_lookups self community_id ns
                ++ section_part
                ++ CountPackages :: reads
                ++ listing_lookups community_id (results resp))%list ∧
    Forall (λ x, is_package_query x = false) section_part ∧
    (section params = None → section_part = []) ∧
    (count resp = 0 → reads = []) ∧
    (count resp ≠ 0 →
     ∃ rest, reads = SelectPackages :: rest ∧
             Forall (λ x, is_package_query x = false) rest).
Proof.
  unfold list_. intros Hrun.
  apply bind_inr in Hrun as (qs0 & l1 & Hq & Hrun).
  apply bind_inr in Hrun as (qs & l2 & Hf & Hrun).
  apply bind_inr in Hrun as (page & l3 & Hp & Hrun).
  apply bind_inr in Hrun as (data & l4 & Hd & Hrun).
  apply bind_inr in Hrun as (sib & l5 & Hs & Hrun).
  unfold ret in Hrun. injection Hrun as <- <-.
  apply get_queryset_log in Hq as (cid & Hk & Hns & ->).
  apply filter_queryset_log in Hf as (cid' & params & section_part & Hk' & Hv & -> & Hsec & Hnone).
  rewrite Hk in Hk'. injection Hk' as <-.
  apply paginate_queryset_log in Hp as (reads & -> & Hzero & Hread).
  apply get_serializer_inr in Hd as (cid' & Hk' & -> & _).
  rewrite Hk in Hk'. injection Hk' as <-.
  unfold _get_sibling_pages, _get_validated_query_params, bind, ret in Hs.
  rewrite Hv in Hs. injection Hs as _ <-.
  exists cid, (default "" (dict_get kwargs "namespace_id")), params, section_part, reads.
  cbn [count results]. split_and!; try done.
  - intros Hself. destruct (Hns Hself) as [ns ->]. done.
  - repeat (rewrite <- ?(assoc_L (++)); cbn [app]). reflexivity.
Qed.

(** X22: the dicts the response serializer is given stand one for one,
    and in the same order, for the rows of the page: each is made of its
    row, of the latest version of the row and of the one listing the row
    has in the community of the url, whose categories and NSFW flag it
    carries. *)
Theorem list_package_dicts query_params log resp log' :
  list_ db self kwargs query_params log = (inr resp, log') →
  ∃ community_id,
    dict_get kwargs "community_id" = Some community_id ∧
    Forall2 (renders db community_id) (results resp) (package_list resp).
Proof.
  unfold list_. intros Hrun.
  apply bind_inr in Hrun as (qs0 & l1 & Hq & Hrun).
  apply bind_inr in Hrun as (qs & l2 & Hf & Hrun).
  apply bind_inr in Hrun as (page & l3 & Hp & Hrun).
  apply bind_inr in Hrun as (data & l4 & Hd & Hrun).
  apply bind_inr in Hrun as (sib & l5 & Hs & Hrun).
  unfold ret in Hrun. injection Hrun as <- <-.
  apply get_serializer_inr in Hd as (cid & Hk & _ & Hdata).
  exists cid. cbn [results package_list]. done.
Qed.

End EffectProperties.

(** ** Pages *)

Section PageProperties.
Import PackageListPaginator.

Lemma num_pages_bounds (len : nat) :
  1 ≤ num_pages (Z.of_nat len) ∧
  Z.of_nat len ≤ 20 * num_pages (Z.of_nat len) ∧
  (0 < Z.of_nat len → 20 * (num_pages (Z.of_nat len) - 1) < Z.of_nat len).
Proof. unfold num_pages, page_size. Z.div_mod_to_equations. lia. Qed.

Lemma get_page_rows queryset n :
  1 ≤ n ≤ num_pages (Z.of_nat (length queryset)) →
  get_page queryset n
  = Some {| object_list := take 20 (drop (20 * (Z.to_nat n - 1)) queryset);
            number := n;
            paginator_count := Z.of_nat (length queryset) |}.
Proof.
  intros Hn. unfold get_page, validate_number, page_size.
  rewrite bool_decide_eq_false_2, bool_decide_eq_false_2 by lia. cbn.
  f_equal. f_equal.
  replace (Z.to_nat ((n - 1) * 20)) with (20 * (Z.to_nat n - 1))%nat by lia.
  case_bool_decide as Hlast.
  - rewrite !take_ge; [done|rewrite length_drop; lia|rewrite length_drop; lia].
  - f_equal. lia.
Qed.

Lemma chunks_concat {A} (l : list A) k :
  concat ((λ i, take 20 (drop (20 * i) l)) <$> seq 0 k) = take (20 * k) l.
Proof.
  induction k as [|k IH]; [by rewrite Nat.mul_0_r|].
  rewrite seq_S, fmap_app, concat_app, IH. cbn [fmap list_fmap concat].
  rewrite app_nil_r, take_take_drop. f_equal. lia.
Qed.

(** X16: the pages of a queryset, from 1 to the number of pages, all
    exist and, put end to end, are the queryset: no package is left out
    or listed twice by paging. *)
Theorem pages_partition_queryset queryset :
  Forall is_Some (all_pages queryset) ∧
  Z.of_nat (length (all_pages queryset)) = num_pages (Z.of_nat (length queryset)) ∧
  concat (page_rows <$> all_pages queryset) = queryset.
Proof.
  pose proof (num_pages_bounds (length queryset)) as (Hge & Hcover & _).
  unfold all_pages.
  set (k := Z.to_nat (num_pages (Z.of_nat (length queryset)))).
  assert (Hpage : ∀ i, (1 ≤ i ≤ k)%nat →
            get_page queryset (Z.of_nat i)
            = Some {| object_list := take 20 (drop (20 * (i - 1)) queryset);
                      number := Z.of_nat i;
                      paginator_count := Z.of_nat (length queryset) |}).
  { intros i Hi. rewrite get_page_rows by lia. by rewrite Nat2Z.id. }
  split_and!.
  - apply Forall_fmap, Forall_forall. intros i Hi%elem_of_seq. cbn.
    rewrite Hpage by lia. eauto.
  - rewrite length_fmap, length_seq. lia.
  - rewrite <- list_fmap_compose.
    rewrite <- (fmap_S_seq 0), <- list_fmap_compose.
    erewrite (list_fmap_ext _ (λ i, take 20 (drop (20 * i) queryset))).
    + rewrite chunks_concat, take_ge; [done|lia].
    + intros j i Hi. apply lookup_seq in Hi as [-> Hj]. cbn.
      rewrite Hpage by lia. cbn. do 2 f_equal. lia.
Qed.

(** X17: every page before the last holds exactly 20 packages, and no
    page of a queryset that is not empty is empty. *)
Theorem pages_are_full queryset n page :
  get_page queryset n = Some page →
  (n < num_pages (Z.of_nat (length queryset)) →
   length (object_list page) = 20%nat) ∧
  (queryset ≠ [] → object_list page ≠ []).
Proof.
  intros Hpage.
  pose proof (num_pages_bounds (length queryset)) as (Hge & Hcover & Hlast).
  assert (Hn : 1 ≤ n ≤ num_pages (Z.of_nat (length queryset))).
  { unfold get_page, validate_number in Hpage.
    repeat case_bool_decide; try done; lia. }
  rewrite get_page_rows in Hpage by done. injection Hpage as <-. cbn.
  split.
  - intros Hlt. rewrite length_take, length_drop.
    unfold num_pages, page_size in *. Z.div_mod_to_equations. lia.
  - intros Hne Hnil. apply (f_equal length) in Hnil.
    rewrite length_take, length_drop in Hnil. change (length []) with 0%nat in Hnil.
    assert (0 < Z.of_nat (length queryset)) by (destruct queryset; [done|cbn; lia]).
    lia.
Qed.

End PageProperties.

Section PageWitnesses.
Import PackageListPaginator.

Lemma pages_are_full_witness :
  ∃ page,
    get_page (packages Example.big_db) 2 = Some page ∧
    length (object_list page) = 20%nat.
Proof.
  eexists. split; [vm_compute; reflexivity|].
  eapply (pages_are_full (packages Example.big_db) 2); [vm_compute; reflexivity|].
  vm_compute. reflexivity.
Defined.

End PageWitnesses.

(** ** The query string of a sibling link *)

Lemma chars_app s1 s2 : chars (s1 +:+ s2) = (chars s1 ++ chars s2)%list.
Proof. induction s1 as [|c s1 IH]; [done|]. simpl. by f_equal. Qed.

Lemma hex_digit_safe n : (n < 16)%nat → Urllib.always_safe (Urllib.hex_digit n) = true.
Proof. intros Hn. do 16 (destruct n as [|n]; [reflexivity|]). lia. Qed.

Lemma nat_of_ascii_bound c : (nat_of_ascii c < 256)%nat.
Proof. destruct c as [[] [] [] [] [] [] [] []]; vm_compute; lia. Qed.

Lemma quote_plus_safe s : Forall url_safe (chars (Urllib.quote_plus s)).
Proof.
  induction s as [|c s IH]; cbn [Urllib.quote_plus]; [constructor|].
  rewrite chars_app. apply Forall_app. split; [|done].
  destruct (Urllib.always_safe c) eqn:Hsafe.
  - cbn [chars]. apply Forall_cons. split; [by left|constructor].
  - destruct (Ascii.eqb c " "%char).
    + cbn [chars]. apply Forall_cons. split; [right; by left|constructor].
    + pose proof (nat_of_ascii_bound c) as Hb.
      cbn [chars]. rewrite !Forall_cons. split_and!; [| | |constructor].
      * right. by right.
      * left. apply hex_digit_safe. apply Nat.Div0.div_lt_upper_bound. lia.
      * left. apply hex_digit_safe. apply Nat.mod_upper_bound. lia.
Qed.

Lemma item_pairs_form k v pair :
  pair ∈ Urllib.item_pairs k v →
  ∃ s, pair = Urllib.quote_plus k +:+ "=" +:+ Urllib.quote_plus s.
Proof.
  destruct v; cbn [Urllib.item_pairs];
    try (intros ->%list_elem_of_singleton; eauto; fail).
  intros (elt & -> & _)%list_elem_of_fmap. eauto.
Qed.

Lemma query_pairs_form query pair :
  pair ∈ Urllib.query_pairs query →
  ∃ k s, pair = Urllib.quote_plus k +:+ "=" +:+ Urllib.quote_plus s.
Proof.
  unfold Urllib.query_pairs. induction query as [|[k v] query IH]; cbn.
  - by intros ?%elem_of_nil.
  - intros [Hin|Hin]%elem_of_app; [|auto].
    apply item_pairs_form in Hin as [s ->]. eauto.
Qed.

(** X18: a sibling link cannot be bent by what the request carries: every
    pair of its query string is a key, one [=], and a value, and key and
    value are made of letters, digits, [_.-~], [+] and [%] only, so
    that no value, the free-text query included, can hold a [&], [=], [#],
    [?] or a space. *)
Theorem sibling_link_pairs_are_quoted params n pair :
  pair ∈ link_pairs params n →
  (∃ k v, pair = k +:+ "=" +:+ v ∧
          Forall url_safe (chars k) ∧ Forall url_safe (chars v)) ∧
  Forall (λ c, ¬ url_safe c) (chars "&=#? ").
Proof.
  intros Hin. split.
  - apply query_pairs_form in Hin as (k & s & ->).
    eexists _, _. split; [reflexivity|]. split; apply quote_plus_safe.
  - cbn [chars]. rewrite !Forall_cons.
    split_and!; [..|constructor]; intros [Hs|[Hs|Hs]]; discriminate.
Qed.

Lemma sibling_link_pairs_are_quoted_witness :
  ∃ k v, "q=a%26b+c" = k +:+ "=" +:+ v ∧
         Forall url_safe (chars k) ∧ Forall url_safe (chars v).
Proof.
  eapply (sibling_link_pairs_are_quoted
            {| deprecated := false; excluded_categories := []; included_categories := [];
               nsfw := false; ordering := "newest"; page := 1; q := Some "a&b c";
               section := None |} 2).
  vm_compute. do 4 apply list_elem_of_further. apply list_elem_of_here.
Defined.

(** ** Team views *)

Section TeamProperties.
Import TeamViews.
Variable User : Type.
Variable can_user_access : Team → User → bool.

(** X19: [check_permissions] lets a request through only for a user who
    is logged in and whom an active team of that name, compared without
    case, gives access; an anonymous request is refused without a look at
    the teams, and when only inactive teams have the name the answer is
    the 404 of a missing team, whoever asks. *)
Theorem check_permissions_grants_active_members_only teams team_id user :
  (∀ queried,
     check_permissions User can_user_access teams team_id user = (Allowed, queried) →
     ∃ u team,
       user = Some u ∧ team ∈ teams ∧ team_is_active team = true ∧
       Text.upper (team_name team) = Text.upper team_id ∧
       can_user_access team u = true) ∧
  (user = None →
   check_permissions User can_user_access teams team_id user
   = (NotAuthenticated, false)) ∧
  ((∀ team, team ∈ teams → Text.upper (team_name team) = Text.upper team_id →
            team_is_active team = false) →
   is_Some user →
   check_permissions User can_user_access teams team_id user = (TeamNotFound, true)).
Proof.
  unfold check_permissions, active_teams. split_and!.
  - intros queried Hrun. destruct user as [u|]; [|done].
    destruct (filter _ (filter _ teams)) as [|team [|team' l]] eqn:Hf; [done| |done].
    destruct (can_user_access team u) eqn:Hacc; [|done].
    assert (Hin : team ∈ filter (λ t, Text.upper (team_name t) = Text.upper team_id)
                           (filter (λ t, team_is_active t) teams))
      by (rewrite Hf; apply list_elem_of_here).
    apply list_elem_of_filter in Hin as [Hname Hin].
    apply list_elem_of_filter in Hin as [Hact Hin].
    exists u, team. split_and!; auto. by apply Is_true_true.
  - by intros ->.
  - intros Hinactive [u ->].
    destruct (filter _ (filter _ teams)) as [|team l] eqn:Hf; [done|].
    assert (Hin : team ∈ filter (λ t, Text.upper (team_name t) = Text.upper team_id)
                           (filter (λ t, team_is_active t) teams))
      by (rewrite Hf; apply list_elem_of_here).
    apply list_elem_of_filter in Hin as [Hname Hin].
    apply list_elem_of_filter in Hin as [Hact Hin].
    apply Is_true_true in Hact. rewrite (Hinactive team Hin Hname) in Hact. done.
Qed.

End TeamProperties.

Section TeamWitnesses.
Import TeamViews.

Lemma check_permissions_witness :
  check_permissions nat (λ _ u, Nat.eqb u 7)
    [{| team_name := "Riders"; team_is_active := false |}] "riders" (Some 7%nat)
  = (TeamNotFound, true).
Proof.
  apply (check_permissions_grants_active_members_only nat (λ _ u, Nat.eqb u 7)).
  - intros team Hin _. apply list_elem_of_singleton in Hin as ->. reflexivity.
  - eexists. reflexivity.
Defined.

End TeamWitnesses.

(** ** The further properties at concrete requests *)

Section FurtherWitnesses.
#[local] Existing Instance Plain.rest_framework.
#[local] Existing Instance Plain.url_conf.
Import PackageListPaginator.

Lemma validated_params_invariants_witness :
  ∃ params,
    is_valid Example.request_page_2 = Some params ∧
    ordering params = "last-updated" ∧ page params = 2 ∧
    is_Some (dict_get ORDER_ARGS (ordering params)).
Proof.
  eexists. split; [vm_compute; reflexivity|].
  edestruct (validated_params_invariants Example.request_page_2)
    as (_ & Hsome & _ & _ & _ & _ & _ & Hord & _); [vm_compute; reflexivity|].
  split; [apply Hord; reflexivity|]. split; [reflexivity|exact Hsome].
Defined.


(** The two server errors, on a package without latest version and on a
    package listed twice in the community. *)
Lemma list_server_errors :
  (list_ Example.unversioned_db CommunityPackageListAPIView Example.kwargs [] []).1
  = inl AttributeError ∧
  (list_ Example.listed_twice_db CommunityPackageListAPIView Example.kwargs [] []).1
  = inl MultipleObjectsReturned.
Proof. split; vm_compute; reflexivity. Qed.

Lemma unknown_community_is_404_witness :
  ∃ new,
    list_ Example.db CommunityPackageListAPIView [("community_id", "nowhere")]
      Example.request_bad_ordering [] = (inl Http404, ([] ++ new)%list) ∧
    Forall (λ x, ∃ name, x = SelectCommunity name ∨ x = SelectNamespace name) new ∧
    ∀ query_params',
      list_ Example.db CommunityPackageListAPIView [("community_id", "nowhere")]
        query_params' []
      = list_ Example.db CommunityPackageListAPIView [("community_id", "nowhere")]
          Example.request_bad_ordering [].
Proof.
  apply (unknown_community_is_404 Example.db CommunityPackageListAPIView
           [("community_id", "nowhere")] "nowhere").
  - split; [eexists; reflexivity|discriminate].
  - reflexivity.
  - vm_compute. reflexivity.
Defined.

Lemma paginate_queryset_range_witness :
  paginate_queryset [("page", "4")] (packages Example.big_db) []
  = (inl NotFound, [CountPackages]) ∧
  ∃ page, paginate_queryset [] [] [] = (inr page, [CountPackages]) ∧
          number page = 1.
Proof.
  split.
  - edestruct (paginate_queryset_range [("page", "4")] (packages Example.big_db) [] 4)
      as (_ & _ & _ & Habove); [reflexivity|].
    apply Habove. vm_compute. reflexivity.
  - edestruct (paginate_queryset_range [] [] [] 1)
      as (_ & Hpage & _ & _); [reflexivity|].
    destruct Hpage as (page & reads & Hrun & Hnum & Hempty & _);
      [vm_compute; split; discriminate|].
    rewrite (Hempty eq_refl) in Hrun. eauto.
Defined.

Lemma list_results_in_scope_witness :
  ∃ resp log',
    list_ Example.db NamespacePackageListAPIView
      [("community_id", "riskofrain2"); ("namespace_id", "TEAM")]
      Example.request_all [] = (inr resp, log') ∧
    ∃ community_id community,
      dict_get [("community_id", "riskofrain2"); ("namespace_id", "TEAM")] "community_id"
      = Some community_id ∧
      communities Example.db !! community_id = Some community ∧
      ∀ p, p ∈ results resp →
           p ∈ packages Example.db ∧ is_active p = true ∧
           (∃ l, l ∈ community_listings p ∧
                 listing_community l = community_pk community) ∧
           (NamespacePackageListAPIView = NamespacePackageListAPIView →
            ∃ ns, dict_get [("community_id", "riskofrain2"); ("namespace_id", "TEAM")]
                    "namespace_id" = Some ns ∧
                  Text.upper (namespace_name p) = Text.upper ns).
Proof.
  eexists _, _. split; [vm_compute; reflexivity|].
  eapply (list_results_in_scope Example.db NamespacePackageListAPIView
            [("community_id", "riskofrain2"); ("namespace_id", "TEAM")]
            Example.request_all []).
  vm_compute. reflexivity.
Defined.

Lemma list_count_is_total_witness :
  ∃ resp log',
    list_ Example.big_db CommunityPackageListAPIView Example.kwargs
      Example.request_page_2 [] = (inr resp, log') ∧
    Z.of_nat (length (results resp)) ≤ count resp.
Proof.
  eexists _, _. split; [vm_compute; reflexivity|].
  edestruct (list_count_is_total Example.big_db CommunityPackageListAPIView
               Example.kwargs Example.request_page_2 [])
    as (cid & community & params & base & l & l' & _ & _ & _ & _ & _ & Hle);
    [vm_compute; reflexivity|].
  exact Hle.
Defined.

Lemma list_queries_on_success_witness :
  ∃ resp log',
    list_ Example.db CommunityPackageListAPIView Example.kwargs
      Example.request_missing_section [] = (inr resp, log') ∧
    ∃ community_id ns params section_part reads,
      dict_get Example.kwargs "community_id" = Some community_id ∧
      (CommunityPackageListAPIView = NamespacePackageListAPIView →
       dict_get Example.kwargs "namespace_id" = Some ns) ∧
      is_valid Example.request_missing_section = Some params ∧
      log' = ([] ++ queryset_lookups CommunityPackageListAPIView community_id ns
                 ++ [SelectCommunity community_id]
                 ++ queryset_lookups CommunityPackageListAPIView community_id ns
                 ++ section_part
                 ++ CountPackages :: reads
                 ++ listing_lookups community_id (results resp))%list ∧
      Forall (λ x, is_package_query x = false) section_part ∧
      (section params = None → section_part = []) ∧
      (count resp = 0 → reads = []) ∧
      (count resp ≠ 0 →
       ∃ rest, reads = SelectPackages :: rest ∧
               Forall (λ x, is_package_query x = false) rest).
Proof.
  eexists _, _. split; [vm_compute; reflexivity|].
  eapply (list_queries_on_success Example.db CommunityPackageListAPIView
            Example.kwargs Example.request_missing_section []).
  vm_compute. reflexivity.
Defined.

Lemma list_package_dicts_witness :
  ∃ resp log',
    list_ Example.db CommunityPackageListAPIView Example.kwargs
      Example.request_all [] = (inr resp, log') ∧
    ∃ community_id,
      dict_get Example.kwargs "community_id" = Some community_id ∧
      Forall2 (renders Example.db community_id) (results resp) (package_list resp).
Proof.
  eexists _, _. split; [vm_compute; reflexivity|].
  eapply (list_package_dicts Example.db CommunityPackageListAPIView
            Example.kwargs Example.request_all []).
  vm_compute. reflexivity.
Defined.

End FurtherWitnesses.

(** ** A package is listed once, at a place the rows decide *)

Lemma compare_by_eq_all args a b :
  compare_by args a b = Eq → ∀ arg, arg ∈ args → compare_arg arg a b = Eq.
Proof.
  induction args as [|arg0 args IH]; cbn [compare_by]; intros Hc arg Hin.
  - by apply elem_of_nil in Hin.
  - destruct (compare_arg arg0 a b) eqn:H0; try done.
    apply elem_of_cons in Hin as [->|Hin]; auto.
Qed.

Lemma order_le_antisym_pk arg a b :
  order_le (order_args arg) a b → order_le (order_args arg) b a → pk a = pk b.
Proof.
  unfold order_le. intros Hab Hba.
  rewrite (compare_by_antisym (order_args arg) a b) in Hba.
  destruct (compare_by (order_args arg) a b) eqn:Hc; try done.
  pose proof (compare_by_eq_all _ _ _ Hc (Desc o_pk)) as Hpk.
  specialize (Hpk ltac:(unfold order_args; set_solver)).
  cbn in Hpk. apply Z.compare_eq in Hpk. done.
Qed.

(** X20: the identifier, last of the [order_by] arguments, breaks every
    tie: when the rows have different identifiers the sorted queryset is
    decided by the rows alone, whatever order the database hands them
    in. *)
Theorem order_by_is_deterministic arg queryset1 queryset2 :
  queryset1 ≡ₚ queryset2 →
  (∀ a b, a ∈ queryset1 → b ∈ queryset1 → pk a = pk b → a = b) →
  order_by (order_args arg) queryset1 = order_by (order_args arg) queryset2.
Proof.
  intros Hperm Hpk.
  apply (StronglySorted_unique_strong (order_le (order_args arg)));
    [|apply order_by_sorted|apply order_by_sorted|by rewrite !order_by_permutation].
  intros a b Ha Hb Hab Hba.
  rewrite order_by_permutation in Ha.
  rewrite order_by_permutation, <- Hperm in Hb.
  eauto using order_le_antisym_pk.
Qed.

Lemma order_by_is_deterministic_witness :
  order_by (order_args (Desc o_download_count)) [Example.P1; Example.P2; Example.P3]
  = order_by (order_args (Desc o_download_count)) [Example.P3; Example.P1; Example.P2].
Proof.
  apply order_by_is_deterministic.
  - apply (bool_decide_unpack _). vm_compute. exact I.
  - intros a b Ha Hb.
    rewrite !elem_of_cons, elem_of_nil in Ha, Hb.
    destruct Ha as [->|[->|[->|[]]]], Hb as [->|[->|[->|[]]]];
      first [reflexivity|discriminate].
Defined.

Lemma apply_filters_NoDup db require_approval params base :
  NoDup base → NoDup (apply_filters db require_approval params base).
Proof.
  intros Hbase. unfold apply_filters.
  assert (Hq : ∀ query qs, NoDup qs → NoDup (filter_by_query query qs)).
  { intros query qs Hqs. unfold filter_by_query. destruct query as [q|]; [|done].
    destruct (Text.truthy q); [apply NoDup_remove_dups|done]. }
  assert (Hin : ∀ ids qs, NoDup qs → NoDup (filter_in_categories ids qs)).
  { intros ids qs Hqs. unfold filter_in_categories.
    destruct ids; [done|by apply NoDup_filter]. }
  assert (Hex : ∀ ids qs, NoDup qs → NoDup (filter_not_in_categories ids qs)).
  { intros ids qs Hqs. unfold filter_not_in_categories.
    destruct ids; [done|by apply NoDup_filter]. }
  apply Hq. unfold filter_by_section.
  assert (Hrest : NoDup (filter_not_in_categories (excluded_categories params)
                    (filter_in_categories (included_categories params)
                       (filter_nsfw (nsfw params)
                          (filter_deprecated (deprecated params)
                             (filter_by_review_status require_approval base)))))).
  { apply Hex, Hin. unfold filter_nsfw, filter_deprecated, filter_by_review_status.
    destruct (nsfw params), (deprecated params); repeat apply NoDup_filter; done. }
  destruct (section params) as [u|]; [|done].
  destruct (sections db !! u); cbn; auto.
Qed.

Section NoDuplicates.
Context `{RestFramework} `{UrlConf}.
Variable db : Database.
Variable self : ViewClass.
Variable kwargs : list (string * string).

Lemma get_queryset_NoDup log base log' :
  NoDup (packages db) →
  get_queryset db self kwargs log = (inr base, log') → NoDup base.
Proof.
  intros Hdb.
  assert (Hc : ∀ community, NoDup (get_community_package_queryset db community)).
  { intros community. unfold get_community_package_queryset, active.
    by repeat apply NoDup_filter. }
  unfold get_queryset, base_get_queryset, _get_community, get_namespace, kwarg,
    bind, execute, ret, raise.
  intros Hrun. repeat case_match; simplify_eq; auto using NoDup_filter.
Qed.

(** X21: when the package table holds no row twice, no response lists a
    package twice. *)
Theorem list_results_no_duplicates query_params log resp log' :
  NoDup (packages db) →
  list_ db self kwargs query_params log = (inr resp, log') →
  NoDup (results resp).
Proof.
  intros Hdb Hrun.
  apply list_inr in Hrun
    as (community & params & arg & base & n & page & data & Hv & Harg & _
        & (l & l' & Hb) & _ & Hn & Hpage & ->).
  apply get_queryset_NoDup in Hb; [|done].
  apply get_page_Some in Hpage as (_ & _ & _ & (i & j & Hobj) & _).
  cbn [results]. rewrite Hobj.
  eapply sublist_NoDup; [|apply sublist_take].
  eapply sublist_NoDup; [|apply sublist_drop].
  rewrite order_by_permutation. by apply apply_filters_NoDup.
Qed.

End NoDuplicates.

Section NoDuplicatesWitness.
#[local] Existing Instance Plain.rest_framework.
#[local] Existing Instance Plain.url_conf.

Lemma list_results_no_duplicates_witness :
  ∃ resp log',
    list_ Example.db CommunityPackageListAPIView Example.kwargs
      Example.request_all [] = (inr resp, log') ∧
    NoDup (results resp).
Proof.
  eexists _, _. split; [vm_compute; reflexivity|].
  eapply (list_results_no_duplicates Example.db CommunityPackageListAPIView
            Example.kwargs Example.request_all []).
  - apply (bool_decide_unpack _). vm_compute. exact I.
  - vm_compute. reflexivity.
Defined.

End NoDuplicatesWitness.
